(** * waterfall: a shallow embedding of [main] (src/main.rs)

    The program is one [async fn main]: it validates the command line
    (clap), resolves the destination URLs (prefix mode or list file),
    parses them, checks the input file name, opens the FLV stream, creates a
    [tokio::sync::broadcast] channel, subscribes one receiver per
    destination, awaits every publish client, and then forwards the FLV
    packets into the channel.

    [main] is modelled in a writer/exception monad: a run produces a trace of
    observable effects ([event]) and ends either normally or with an exit
    (a clap usage error, a panic, or an [Err] returned by [main]).
    Everything outside [main.rs] (the filesystem, [flv::read_flv_tag],
    [rtmp::client::Client], [rtmp_url::parse_rtmp_url]) is an input of the
    model, recorded in [Env], or modelled from the spec where a concrete
    definition is needed. *)

From Stdlib Require Import List String Ascii Bool Arith Lia NArith Decimal DecimalNat.
Import ListNotations.
Open Scope string_scope.

(** ** Rust's [Result] *)

Inductive result (A E : Type) : Type :=
| Ok (a : A)
| Err (e : E).
Arguments Ok {A E} a.
Arguments Err {A E} e.

Definition is_err {A E} (r : result A E) : bool :=
  match r with Ok _ => false | Err _ => true end.

(** ** Strings as Rust handles them *)

(** [str::strip_prefix] *)
Fixpoint strip_prefix (pre s : string) : option string :=
  match pre, s with
  | EmptyString, _ => Some s
  | String c pre', String d s' =>
      if Ascii.eqb c d then strip_prefix pre' s' else None
  | String _ _, EmptyString => None
  end.

(** [str::ends_with] (byte-wise, hence case-sensitive) *)
Definition ends_with (s suffix : string) : bool :=
  Nat.leb (String.length suffix) (String.length s) &&
  String.eqb (substring (String.length s - String.length suffix)
                        (String.length suffix) s) suffix.

(** [str::split] on one character: always at least one piece *)
Fixpoint split_on (sep : ascii) (s : string) : list string :=
  match s with
  | EmptyString => [EmptyString]
  | String c rest =>
      let pieces := split_on sep rest in
      if Ascii.eqb c sep then EmptyString :: pieces
      else match pieces with
           | p :: ps => String c p :: ps
           | [] => [String c EmptyString]
           end
  end.

(** [Display] for [usize]: the decimal digits of the number *)
Fixpoint uint_to_string (d : Decimal.uint) : string :=
  match d with
  | Decimal.Nil => EmptyString
  | Decimal.D0 d => String "0" (uint_to_string d)
  | Decimal.D1 d => String "1" (uint_to_string d)
  | Decimal.D2 d => String "2" (uint_to_string d)
  | Decimal.D3 d => String "3" (uint_to_string d)
  | Decimal.D4 d => String "4" (uint_to_string d)
  | Decimal.D5 d => String "5" (uint_to_string d)
  | Decimal.D6 d => String "6" (uint_to_string d)
  | Decimal.D7 d => String "7" (uint_to_string d)
  | Decimal.D8 d => String "8" (uint_to_string d)
  | Decimal.D9 d => String "9" (uint_to_string d)
  end.

Definition usize_to_string (n : nat) : string := uint_to_string (Nat.to_uint n).

(** The double quote character. *)
Definition dq : string := String (ascii_of_nat 34) EmptyString.

(** [core::num::ParseIntError] and its [Debug] form, e.g.
    [ParseIntError { kind: InvalidDigit }] (the variants an unsigned parse
    can report). *)
Inductive IntErrorKind := Empty | InvalidDigit | PosOverflow.

Record ParseIntError := mkParseIntError { kind : IntErrorKind }.

Definition int_error_kind_name (k : IntErrorKind) : string :=
  match k with
  | Empty => "Empty"
  | InvalidDigit => "InvalidDigit"
  | PosOverflow => "PosOverflow"
  end.

Definition parse_int_error_debug (e : ParseIntError) : string :=
  "ParseIntError { kind: " ++ int_error_kind_name (kind e) ++ " }".

(** [<usize as FromStr>::from_str] on a 64-bit target, as current Rust
    implements it: an empty string is [Empty]; a lone sign is
    [InvalidDigit]; one leading [+] is skipped; the digits are then read
    from left to right, and the first one that is not a decimal digit gives
    [InvalidDigit], unless the value read so far already exceeds 2^64-1,
    which gives [PosOverflow]. *)
Definition usize_max : N := (2 ^ 64 - 1)%N.

Definition digit_value (c : ascii) : option N :=
  let n := nat_of_ascii c in
  if Nat.leb 48 n && Nat.leb n 57 then Some (N.of_nat (n - 48)) else None.

Fixpoint parse_digits (acc : N) (s : string) : result N ParseIntError :=
  match s with
  | EmptyString => Ok acc
  | String c rest =>
      match digit_value c with
      | None => Err (mkParseIntError InvalidDigit)
      | Some d =>
          let acc' := (acc * 10 + d)%N in
          if (acc' <=? usize_max)%N then parse_digits acc' rest
          else Err (mkParseIntError PosOverflow)
      end
  end.

Definition from_str_usize (s : string) : result nat ParseIntError :=
  match s with
  | EmptyString => Err (mkParseIntError Empty)
  | String "+" EmptyString | String "-" EmptyString => Err (mkParseIntError InvalidDigit)
  | _ =>
      let digits := match s with
                    | String "+" rest => rest
                    | _ => s
                    end in
      match parse_digits 0%N digits with
      | Ok v => Ok (N.to_nat v)
      | Err e => Err e
      end
  end.

(** [s.parse::<usize>().ok()] *)
Definition parse_usize (s : string) : option nat :=
  match from_str_usize s with
  | Ok n => Some n
  | Err _ => None
  end.

(** [str::from_utf8] succeeds: the bytes are well-formed UTF-8 (the
    Unicode table of well-formed byte sequences: no overlong forms, no
    surrogates, nothing above U+10FFFF). *)
Definition byte_in (lo hi : nat) (c : ascii) : bool :=
  Nat.leb lo (nat_of_ascii c) && Nat.leb (nat_of_ascii c) hi.

Definition utf8_cont (c : ascii) : bool := byte_in 128 191 c.

Fixpoint utf8_valid (s : string) : bool :=
  match s with
  | EmptyString => true
  | String c1 r1 =>
      let b := nat_of_ascii c1 in
      if Nat.ltb b 128 then utf8_valid r1
      else if byte_in 194 223 c1 then
        match r1 with
        | String c2 r2 => utf8_cont c2 && utf8_valid r2
        | EmptyString => false
        end
      else if byte_in 224 239 c1 then
        match r1 with
        | String c2 (String c3 r3) =>
            (if Nat.eqb b 224 then byte_in 160 191 c2
             else if Nat.eqb b 237 then byte_in 128 159 c2
             else utf8_cont c2)
            && utf8_cont c3 && utf8_valid r3
        | _ => false
        end
      else if byte_in 240 244 c1 then
        match r1 with
        | String c2 (String c3 (String c4 r4)) =>
            (if Nat.eqb b 240 then byte_in 144 191 c2
             else if Nat.eqb b 244 then byte_in 128 143 c2
             else utf8_cont c2)
            && utf8_cont c3 && utf8_cont c4 && utf8_valid r4
        | _ => false
        end
      else false
  end.

(** [std::io::Error] as reading a file can report it: the [InvalidData]
    error of [read_line] on bytes that are not UTF-8, or an error of the
    operating system (e.g. reading a directory), given by its [Debug]
    form. *)
Inductive io_error :=
| InvalidUtf8
| OsError (debug : string).

(** The [Debug] form, as [Result::unwrap] prints it (current Rust). *)
Definition io_error_debug (e : io_error) : string :=
  match e with
  | InvalidUtf8 =>
      "Error { kind: InvalidData, message: " ++ dq ++ "stream did not contain valid UTF-8"
      ++ dq ++ " }"
  | OsError d => d
  end.

Definition nl : string := String "010" EmptyString.

(** [String::pop] of a final ['\r'] *)
Definition strip_cr (line : string) : string :=
  if ends_with line (String "013" EmptyString)
  then substring 0 (String.length line - 1) line
  else line.

(** [BufRead::lines] over a file whose bytes are [s], the reading ending
    with the error [err] if any.  Each item is one [read_line]: the bytes
    up to and including the next ['\n'] (or up to the end); the chunk
    must be UTF-8, else the item is [Err(InvalidData)]; the ['\n'], and a
    ['\r'] before it, are removed.  An empty chunk at the end of the file
    ends the iterator.  A read error ends the chunk being read (its bytes
    are lost) with the item [Err(err)]. *)
Definition read_line_item (chunk : string) (line : string) : result string io_error :=
  if utf8_valid chunk then Ok line else Err InvalidUtf8.

Fixpoint read_lines_aux (s : string) (cur : string) (err : option io_error)
  : list (result string io_error) :=
  match s with
  | EmptyString =>
      match err with
      | Some e => [Err e]
      | None => if String.eqb cur EmptyString then [] else [read_line_item cur cur]
      end
  | String c rest =>
      if Ascii.eqb c "010"
      then read_line_item (cur ++ nl) (strip_cr cur) :: read_lines_aux rest EmptyString err
      else read_lines_aux rest (cur ++ String c EmptyString) err
  end.

Definition read_lines (contents : string) (err : option io_error)
  : list (result string io_error) :=
  read_lines_aux contents EmptyString err.

(** ** Destinations: [rtmp_url::Url] and [rtmp_url::parse_rtmp_url] *)

Record Url := mkUrl {
  host : string;
  port : nat;
  app : string;
  stream_key : string
}.

Record UrlParseError := mkUrlParseError {
  bad_url : string;
  parse_reason : string
}.

(** The [Display] text of a parse error, as [panic!] prints it. *)
Definition url_error_to_string (e : UrlParseError) : string :=
  "invalid RTMP url `" ++ bad_url e ++ "`: " ++ parse_reason e.

(** Modelled from the spec: the [Debug] form of a parse error, which
    [Result::unwrap] would print at main.rs line 135.  The error type is in
    [rtmp_url], not in src/; main never prints this text, as line 131
    panics on the first [Err] before line 135 unwraps. *)
Definition url_error_debug (e : UrlParseError) : string :=
  "UrlParseError { bad_url: " ++ dq ++ bad_url e ++ dq ++ ", parse_reason: " ++ dq
  ++ parse_reason e ++ dq ++ " }".

Definition rtmp_default_port : nat := 1935.

(** Modelled from the spec: [rtmp_url::parse_rtmp_url] (the module
    [rtmp_url] is not in src/).  The spec fixes the shape
    [scheme://host[:port]/application/stream_key], with scheme, host,
    application and stream key mandatory and an optional port defaulting to
    the protocol's port. *)
Definition parse_rtmp_url (u : string) : result Url UrlParseError :=
  let fail reason := Err (mkUrlParseError u reason) in
  match strip_prefix "rtmp://" u with
  | None => fail "the scheme must be rtmp"
  | Some rest =>
      match split_on "/" rest with
      | [hp; a; k] =>
          if String.eqb hp "" || String.eqb a "" || String.eqb k ""
          then fail "missing host, application or stream key"
          else match split_on ":" hp with
               | [h] => Ok (mkUrl h rtmp_default_port a k)
               | [h; p] =>
                   match parse_usize p with
                   | Some n =>
                       if String.eqb h "" || Nat.ltb 65535 n
                       then fail "invalid host or port"
                       else Ok (mkUrl h n a k)
                   | None => fail "invalid port"
                   end
               | _ => fail "invalid host"
               end
      | _ => fail "expected host/application/stream_key"
      end
  end.

(** ** Packets ([PacketType]) and the FLV stream *)

(** [rml_rtmp::sessions::StreamMetadata], reduced to its key/value pairs. *)
Definition StreamMetadata := list (string * string).

Inductive PacketType :=
| Metadata (m : StreamMetadata)
| Video (data : list Byte.byte) (ts : N)
| Audio (data : list Byte.byte) (ts : N).

(** The error item of the tag stream returned by [flv::read_flv_tag]. *)
Record DecodeError := mkDecodeError { decode_reason : string }.

(** ** Observable effects of a run *)

Inductive level := Info | Warn.

Inductive event :=
| OpenDestList (path : string)          (* [File::open(dest_file_path)] *)
| OpenInput (path : string) (repeat : bool)
                                        (* [flv::read_flv_tag(..)] *)
| Subscribe (k : nat)                   (* [tx.subscribe()] for client [k] *)
| Connect (k : nat) (u : Url)           (* client [k] opens its connection *)
| SetupDone (k : nat) (ok : bool)       (* client [k]'s future completes *)
| Send (p : PacketType) (receivers : nat)
                                        (* a successful [tx.send(msg)] *)
| Log (l : level) (msg : string).

(** Effects that are network activity or input decoding (everything but the
    destination list file and logging). *)
Definition network_or_decode (e : event) : bool :=
  match e with
  | OpenDestList _ | Log _ _ => false
  | _ => true
  end.

Fixpoint sent_packets (tr : list event) : list PacketType :=
  match tr with
  | [] => []
  | Send p _ :: tr' => p :: sent_packets tr'
  | _ :: tr' => sent_packets tr'
  end.

(** ** How a run ends *)

Inductive exit_status :=
| Success                   (* [main] returns [Ok(())] *)
| UsageError                (* clap's [get_matches] rejects the arguments *)
| Panic (msg : string)      (* [panic!], [assert!], [expect], [unwrap] *)
| IoError                   (* [main] returns [Err(io::Error)] via [?] *)
| StillRunning.             (* [main] has not returned when the first pass
                               over the input is used up: with [--repeat]
                               the reader rewinds and the broadcast loop
                               goes on with the next pass *)

(** The process exit status; a run still going has none. *)
Definition exit_code (x : exit_status) : option nat :=
  match x with
  | Success => Some 0
  | UsageError => Some 1
  | Panic _ => Some 101
  | IoError => Some 1
  | StillRunning => None
  end.

(** ** A writer/exception monad for [main] *)

Inductive outcome (A : Type) :=
| Continue (a : A)
| Exit (x : exit_status).
Arguments Continue {A} a.
Arguments Exit {A} x.

Definition M (A : Type) : Type := (list event * outcome A)%type.

Definition ret {A} (a : A) : M A := ([], Continue a).

Definition bind {A B} (m : M A) (k : A -> M B) : M B :=
  match m with
  | (tr, Continue a) => let (tr', o) := k a in ((tr ++ tr')%list, o)
  | (tr, Exit x) => (tr, Exit x)
  end.

Notation "x <- m ;; k" := (bind m (fun x => k))
  (at level 61, m at next level, right associativity).
Notation "' p <- m ;; k" := (bind m (fun x => match x with p => k end))
  (at level 61, p pattern, m at next level, right associativity).

Definition emit (e : event) : M unit := ([e], Continue tt).
Definition exit {A} (x : exit_status) : M A := ([], Exit x).
Definition panic {A} (msg : string) : M A := exit (Panic msg).

(** [Option::unwrap] *)
Definition unwrap {A} (o : option A) : M A :=
  match o with
  | Some a => ret a
  | None => panic "called `Option::unwrap()` on a `None` value"
  end.

(** [Result::expect] and [Result::unwrap]: the panic message ends with the
    [Debug] form of the error. *)
Definition expect_ok {A E} (debug : E -> string) (r : result A E) (msg : string) : M A :=
  match r with
  | Ok a => ret a
  | Err e => panic (msg ++ ": " ++ debug e)
  end.

Definition unwrap_ok {A E} (debug : E -> string) (r : result A E) : M A :=
  expect_ok debug r "called `Result::unwrap()` on an `Err` value".

(** [rs.into_iter().map(|r| r.unwrap())] consumed in order *)
Fixpoint map_unwrap_ok {A E} (debug : E -> string) (rs : list (result A E)) : M (list A) :=
  match rs with
  | [] => ret []
  | r :: rs' => a <- unwrap_ok debug r;; l <- map_unwrap_ok debug rs';; ret (a :: l)
  end.

Definition assert_ (b : bool) (msg : string) : M unit :=
  if b then ret tt else panic msg.

(** ** The world outside [main.rs] *)

(** Modelled from the spec: the publish client [rtmp::client::Client] and
    the reader [flv::read_flv_tag] (the modules [rtmp] and [flv] are not in
    src/).  The reader yields a lazy sequence of
    [Result<PacketType, DecodeError>] items, or fails to open the file; a
    client either reaches [Publishing] or fails during its setup and then
    drops its subscription; a client that reached [Publishing] keeps its
    subscription until it closes, at a moment chosen by the network. *)
Record Env := mkEnv {
  fs_read : string -> option (string * option io_error);
      (* [File::open(path)]: [None] when it fails; otherwise the bytes read
         from the file, and the error that ended the reading, if any *)
  flv_stream : string -> bool -> option (list (result PacketType DecodeError));
      (* [flv::read_flv_tag(path, repeat, ..)]: [None] when it fails;
         otherwise the items of one pass over the file's tags, which is the
         whole stream without [--repeat]; with it, the reader rewinds at the
         end of the pass and the stream never ends *)
  setup_ok : nat -> bool;
      (* client [k] reached [Publishing] *)
  holds_rx : nat -> nat -> bool
      (* [holds_rx i k]: client [k] still holds its receiver at the [i]-th
         iteration of the broadcast loop *)
}.

(** ** The command line *)

(** The values clap collected for the arguments declared in [main]. *)
Record Args := mkArgs {
  arg_input : option string;          (* -i/--input INPUT *)
  arg_repeat : bool;                  (* -r/--repeat *)
  arg_concurrency : option string;    (* -c/--concurrency CONCURRENCY *)
  arg_prefix : option string;         (* -p/--prefix PREFIX *)
  arg_dest_list_file : option string  (* positional DEST_LIST_FILE *)
}.

(** The validation [get_matches] performs for the declared arguments:
    [INPUT] is required; the group ["prefix group"] = [{PREFIX}] conflicts
    with [DEST_LIST_FILE] and requires [CONCURRENCY]; the group
    ["list group"] = [{DEST_LIST_FILE}] conflicts with ["prefix group"] and
    with [CONCURRENCY].  No group is required.  A rejected command line
    makes clap print the error and exit with status 1. *)
Definition get_matches_ok (a : Args) : bool :=
  let present {A} (o : option A) := match o with Some _ => true | None => false end in
  present (arg_input a)
  && negb (present (arg_prefix a) && present (arg_dest_list_file a))
  && negb (present (arg_dest_list_file a)
           && (present (arg_prefix a) || present (arg_concurrency a)))
  && (negb (present (arg_prefix a)) || present (arg_concurrency a)).

Definition get_matches (a : Args) : M unit :=
  if get_matches_ok a then ret tt else exit UsageError.

(** ** Destination resolution (main.rs lines 113-135) *)

(** [(0..concurrency).map(move |c| format!("{}{}", prefix, c))] *)
Definition gen_urls (prefix : string) (concurrency : nat) : list string :=
  map (fun c => prefix ++ usize_to_string c) (seq 0 concurrency).

Definition resolve_urls (env : Env) (a : Args) : M (list string) :=
  match arg_prefix a with
  | Some _ =>
      concurrency <- (match arg_concurrency a with
                      | Some c => expect_ok parse_int_error_debug (from_str_usize c)
                                    "Cannot parse `CONCURRENCY`"
                      | None => ret 1
                      end);;
      prefix <- unwrap (arg_prefix a);;
      ret (gen_urls prefix concurrency)
  | None =>
      (* Read from list file *)
      dest_file_path <- unwrap (arg_dest_list_file a);;
      _ <- emit (OpenDestList dest_file_path);;
      '(contents, err) <- (match fs_read env dest_file_path with
                           | Some r => ret r
                           | None => exit IoError
                           end);;
      (* [reader.lines().map(|r| r.unwrap())], consumed by the [collect] of
         line 128: the first item that is an [Err] panics *)
      map_unwrap_ok io_error_debug (read_lines contents err)
  end.

Definition check_urls (urls : list string) : M (list Url) :=
  let parsed := map parse_rtmp_url urls in
  _ <- (match find is_err parsed with
        | Some (Err e) => panic ("RTMP url error: " ++ url_error_to_string e)
        | _ => ret tt
        end);;
  map_unwrap_ok url_error_debug parsed.

(** [input_file_path.ends_with(".flv") || input_file_path.ends_with(".FLV")] *)
Definition flv_name_ok (input_file_path : string) : bool :=
  ends_with input_file_path ".flv" || ends_with input_file_path ".FLV".

Definition open_input (env : Env) (path : string) (repeat : bool)
  : M (list (result PacketType DecodeError)) :=
  _ <- emit (OpenInput path repeat);;
  match flv_stream env path repeat with
  | Some msgs => ret msgs
  | None => exit IoError
  end.

(** ** The broadcast channel and the clients (main.rs lines 142-174) *)

(** The receivers of [tokio::sync::broadcast::channel(1024)]: [rx_held] is
    the receiver bound to [_rx] in [main], which lives until [main]
    returns; [subscribers] are the receivers given to the clients. *)
Record Hub := mkHub {
  rx_held : bool;
  subscribers : list nat
}.

(** [let (tx, _rx) = tokio::sync::broadcast::channel(1024);] *)
Definition channel : Hub := mkHub true [].

(** [tx.receiver_count()] at the [i]-th iteration of the broadcast loop *)
Definition receiver_count (env : Env) (hub : Hub) (i : nat) : nat :=
  (if rx_held hub then 1 else 0)
  + List.length (filter (fun k => setup_ok env k && holds_rx env i k) (subscribers hub)).

(** [tx.send(msg)]: [Ok(receivers)], or [Err] when no receiver is left *)
Definition send (receivers : nat) : result nat unit :=
  if Nat.eqb receivers 0 then Err tt else Ok receivers.

(** [for url in urls { let rx = tx.subscribe(); clients.push(Client::new(url, rx, ..)); }]
    The client futures are only created here; they run when polled. *)
Fixpoint subscribe_all (hub : Hub) (urls : list Url) (k : nat)
  : M (Hub * list (nat * Url)) :=
  match urls with
  | [] => ret (hub, [])
  | url :: urls' =>
      _ <- emit (Subscribe k);;
      '(hub', clients) <- subscribe_all (mkHub (rx_held hub) ((subscribers hub ++ [k])%list)) urls' (S k);;
      ret (hub', (k, url) :: clients)
  end.

(** Modelled from the spec: the future of [rtmp::client::Client::new] (not
    in src/).  One connection attempt, then handshake and session
    negotiation, which either reach [Publishing] or fail. *)
Definition client_future (env : Env) (k : nat) (url : Url) : M unit :=
  _ <- emit (Connect k url);;
  emit (SetupDone k (setup_ok env k)).

(** [clients.collect::<Vec<_>>().await]: runs every client future to
    completion ([FuturesUnordered] interleaves them; the order does not
    matter for the trace properties below, which only compare these events
    with the broadcast). *)
Fixpoint collect_clients (env : Env) (clients : list (nat * Url)) : M unit :=
  match clients with
  | [] => ret tt
  | (k, url) :: clients' => _ <- client_future env k url;; collect_clients env clients'
  end.

Definition no_client_quit : M unit := emit (Log Warn "No publish client exists, quit").

(** [while let Some(Ok(msg)) = msgs.next().await { .. }] over the items
    [msgs] of one pass of the input.  When the pass is used up,
    [msgs.next()] yields [None] without [--repeat]; with it the reader
    rewinds and the loop goes on with the next pass, where the model stops
    the trace: the run is [StillRunning]. *)
Fixpoint broadcast (env : Env) (hub : Hub) (repeat : bool)
  (msgs : list (result PacketType DecodeError)) (i : nat) : M unit :=
  match msgs with
  | Ok msg :: msgs' =>
      let n := receiver_count env hub i in
      if Nat.leb n 0 then no_client_quit
      else match send n with
           | Ok _num => _ <- emit (Send msg n);; broadcast env hub repeat msgs' (S i)
           | Err _ => no_client_quit
           end
  | Err _ :: _ => ret tt
  | [] => if repeat then exit StillRunning else ret tt
  end.

Definition serve (env : Env) (repeat : bool) (urls : list Url)
  (msgs : list (result PacketType DecodeError)) : M unit :=
  let tx := channel in
  '(hub, clients) <- subscribe_all tx urls 0;;
  (* await for all publish client ready *)
  _ <- collect_clients env clients;;
  _ <- emit (Log Info "All publish clients are ready");;
  (* broadcast *)
  _ <- broadcast env hub repeat msgs 0;;
  emit (Log Info "End").

(** ** [main] *)

Definition destinations (env : Env) (a : Args) : M (list Url) :=
  urls <- resolve_urls env a;;
  check_urls urls.

Definition preflight (env : Env) (a : Args) : M (list Url * string * bool) :=
  _ <- get_matches a;;
  urls <- destinations env a;;
  let repeat := arg_repeat a in
  input_file_path <- unwrap (arg_input a);;
  _ <- assert_ (flv_name_ok input_file_path) "Only FLV files are supported";;
  ret (urls, input_file_path, repeat).

Definition main (env : Env) (a : Args) : M unit :=
  '(urls, input_file_path, repeat) <- preflight env a;;
  msgs <- open_input env input_file_path repeat;;
  serve env repeat urls msgs.

Definition run (env : Env) (a : Args) : list event * exit_status :=
  match main env a with
  | (tr, Continue _) => (tr, Success)
  | (tr, Exit x) => (tr, x)
  end.

(** ** Trace helpers *)

Definition quiet (tr : list event) : bool :=
  forallb (fun e => negb (network_or_decode e)) tr.

Definition send_or_log (e : event) : bool :=
  match e with Send _ _ | Log _ _ => true | _ => false end.

Fixpoint subscriptions (tr : list event) : list nat :=
  match tr with
  | [] => []
  | Subscribe k :: tr' => k :: subscriptions tr'
  | _ :: tr' => subscriptions tr'
  end.

Fixpoint connections (tr : list event) : list (nat * Url) :=
  match tr with
  | [] => []
  | Connect k u :: tr' => (k, u) :: connections tr'
  | _ :: tr' => connections tr'
  end.

Fixpoint oks {A E} (rs : list (result A E)) : list A :=
  match rs with
  | [] => []
  | Ok a :: rs' => a :: oks rs'
  | Err _ :: rs' => oks rs'
  end.

(** [true] when [needle] occurs in [hay] *)
Fixpoint contains (needle hay : string) : bool :=
  String.prefix needle hay ||
  match hay with
  | EmptyString => false
  | String _ hay' => contains needle hay'
  end.

Definition client_events (env : Env) (c : nat * Url) : list event :=
  let '(k, u) := c in [Connect k u; SetupDone k (setup_ok env k)].

(** The hub of [main] after the subscriptions of [urls]. *)
Definition serve_hub (urls : list Url) : Hub := mkHub true (seq 0 (List.length urls)).

(** The broadcast loop of [main] ends normally, or the run is still going. *)
Definition end_log (o : outcome unit) : list event :=
  match o with Continue _ => [Log Info "End"] | Exit _ => [] end.

Definition serve_status (o : outcome unit) : exit_status :=
  match o with Continue _ => Success | Exit x => x end.

Definition serve_trace (env : Env) (repeat : bool) (urls : list Url)
  (msgs : list (result PacketType DecodeError)) : list event :=
  let n := List.length urls in
  let b := broadcast env (serve_hub urls) repeat msgs 0 in
  (map Subscribe (seq 0 n)
   ++ flat_map (client_events env) (combine (seq 0 n) urls)
   ++ Log Info "All publish clients are ready"
   :: fst b ++ end_log (snd b))%list.

(** The packets before the first decode error of a pass. *)
Fixpoint ok_prefix (msgs : list (result PacketType DecodeError)) : list PacketType :=
  match msgs with
  | Ok p :: msgs' => p :: ok_prefix msgs'
  | _ => []
  end.

(** ** Concrete inputs *)

Definition pkt_video0 : PacketType := Video [Byte.x17; Byte.x00] 0%N.
Definition pkt_audio40 : PacketType := Audio [Byte.xaf; Byte.x01] 40%N.
Definition pkt_video90 : PacketType := Video [Byte.x27; Byte.x01] 90%N.

(** An FLV file with three tags timestamped 0, 40 and 90 ms. *)
Definition three_tags : list (result PacketType DecodeError) :=
  [Ok pkt_video0; Ok pkt_audio40; Ok pkt_video90].

(** A world where the destination list file holds [list_contents], the
    input file decodes to [stream], every client's setup succeeds or fails
    as [ok], and every client holds its receiver or not as [alive]. *)
Definition env_of (list_contents : string) (stream : list (result PacketType DecodeError))
  (ok alive : bool) : Env :=
  mkEnv (fun _ => Some (list_contents, None)) (fun _ _ => Some stream)
        (fun _ => ok) (fun _ _ => alive).

(** [waterfall --input <input> dests.txt] *)
Definition list_args (input : string) : Args :=
  mkArgs (Some input) false None None (Some "dests.txt").

(** [waterfall --input bench.flv --concurrency <c> --prefix <prefix>] *)
Definition prefix_args (c prefix : string) : Args :=
  mkArgs (Some "bench.flv") false (Some c) (Some prefix) None.

Definition one_dest : string := "rtmp://h/app/a" ++ nl.
Definition two_bad_dests : string := "rtmp:/h/app/a" ++ nl ++ "http://h/app/b" ++ nl.

Definition corrupt_stream : list (result PacketType DecodeError) :=
  [Ok pkt_video0; Err (mkDecodeError "invalid tag header"); Ok pkt_audio40; Ok pkt_video90].

Definition corrupt_run : list event * exit_status :=
  run (env_of one_dest corrupt_stream true true) (list_args "bench.flv").

Definition clients_gone_run : list event * exit_status :=
  run (env_of one_dest three_tags false false) (list_args "bench.flv").

Definition dest_a : Url := mkUrl "h" 1935 "app" "a".

(** The two bytes of the UTF-8 encoding of U+00E9. *)
Definition e_acute : string := String (ascii_of_nat 195) (String (ascii_of_nat 169) EmptyString).


Definition zero_concurrency_run : list event * exit_status :=
  run (env_of "" three_tags true true) (prefix_args "0" "rtmp://h/app/s_").

(** Strings without a line feed, which [BufRead::lines] keeps whole. *)
Fixpoint no_newline (s : string) : bool :=
  match s with
  | EmptyString => true
  | String c rest => negb (Ascii.eqb c "010") && no_newline rest
  end.

Definition cr : string := String "013" EmptyString.

(** A list file written with one entry per line, each followed by [term]. *)
Definition write_lines (term : string) (ls : list string) : string :=
  fold_right (fun l acc => l ++ term ++ acc) EmptyString ls.

Definition is_send (e : event) : bool :=
  match e with Send _ _ => true | _ => false end.

Definition is_warn (e : event) : bool :=
  match e with Log Warn _ => true | _ => false end.

(** ** General lemmas *)

Section Lemmas.

Lemma bind_Continue {A B} (tr : list event) (a : A) (k : A -> M B) :
  bind (tr, Continue a) k = ((tr ++ fst (k a))%list, snd (k a)).
Proof. unfold bind. destruct (k a); reflexivity. Qed.

Lemma bind_Exit {A B} (tr : list event) (x : exit_status) (k : A -> M B) :
  bind (tr, Exit x) k = (tr, Exit x).
Proof. reflexivity. Qed.

Lemma subscribe_all_spec (urls : list Url) : forall hub k,
  subscribe_all hub urls k =
  (map Subscribe (seq k (List.length urls)),
   Continue (mkHub (rx_held hub) (subscribers hub ++ seq k (List.length urls))%list,
             combine (seq k (List.length urls)) urls)).
Proof.
  induction urls as [|u us IH]; intros hub k; simpl.
  - rewrite app_nil_r. destruct hub; reflexivity.
  - rewrite IH. simpl. rewrite <- app_assoc, app_nil_r. reflexivity.
Qed.

Lemma collect_clients_spec (env : Env) (cs : list (nat * Url)) :
  collect_clients env cs = (flat_map (client_events env) cs, Continue tt).
Proof.
  induction cs as [|[k u] cs IH]; simpl.
  - reflexivity.
  - unfold client_future, emit. simpl. rewrite IH. reflexivity.
Qed.

Lemma broadcast_spec (env : Env) (hub : Hub) (repeat : bool)
  (msgs : list (result PacketType DecodeError)) :
  forall i, (snd (broadcast env hub repeat msgs i) = Continue tt \/
             snd (broadcast env hub repeat msgs i) = Exit StillRunning) /\
            forallb send_or_log (fst (broadcast env hub repeat msgs i)) = true.
Proof.
  induction msgs as [|[msg|d] msgs IH]; intro i; simpl.
  - destruct repeat; simpl; auto.
  - destruct (Nat.leb (receiver_count env hub i) 0); [simpl; auto|].
    unfold send. destruct (Nat.eqb (receiver_count env hub i) 0); [simpl; auto|].
    destruct (IH (S i)) as [H1 H2].
    destruct (broadcast env hub repeat msgs (S i)) as [tr o]. simpl in *. auto.
  - auto.
Qed.

Lemma serve_spec (env : Env) (repeat : bool) (urls : list Url) msgs :
  serve env repeat urls msgs =
  (serve_trace env repeat urls msgs, snd (broadcast env (serve_hub urls) repeat msgs 0)).
Proof.
  unfold serve, channel, serve_trace, serve_hub. rewrite subscribe_all_spec. simpl.
  rewrite collect_clients_spec. unfold emit. simpl.
  destruct (broadcast env (mkHub true (seq 0 (List.length urls))) repeat msgs 0)
    as [tb [[]|x]]; simpl; rewrite ?app_nil_r; reflexivity.
Qed.

Lemma run_spec (env : Env) (a : Args) :
  run env a =
  match preflight env a with
  | (tp, Exit x) => (tp, x)
  | (tp, Continue (urls, input, rep)) =>
      match flv_stream env input rep with
      | None => ((tp ++ [OpenInput input rep])%list, IoError)
      | Some msgs =>
          ((tp ++ OpenInput input rep :: serve_trace env rep urls msgs)%list,
           serve_status (snd (broadcast env (serve_hub urls) rep msgs 0)))
      end
  end.
Proof.
  unfold run, main.
  destruct (preflight env a) as [tp [[[urls input] rep]|x]].
  - rewrite bind_Continue. unfold open_input, emit.
    destruct (flv_stream env input rep) as [msgs|]; simpl.
    + rewrite serve_spec. simpl.
      destruct (snd (broadcast env (serve_hub urls) rep msgs 0)); reflexivity.
    + reflexivity.
  - reflexivity.
Qed.

Lemma map_unwrap_ok_trace {A E} (debug : E -> string) (rs : list (result A E)) :
  fst (map_unwrap_ok debug rs) = [].
Proof.
  induction rs as [|[a|e] rs IH]; simpl; auto.
  destruct (map_unwrap_ok debug rs) as [tr o]. simpl in *. subst. destruct o; reflexivity.
Qed.

Lemma map_unwrap_ok_oks {A E} (debug : E -> string) (rs : list (result A E)) :
  forallb (fun r => negb (is_err r)) rs = true ->
  map_unwrap_ok debug rs = ([], Continue (oks rs)).
Proof.
  induction rs as [|[a|e] rs IH]; simpl; intro H; auto.
  - rewrite IH by exact H. reflexivity.
  - discriminate.
Qed.

Lemma map_unwrap_ok_map_Ok {A E} (debug : E -> string) (l : list A) :
  map_unwrap_ok debug (map (@Ok A E) l) = ([], Continue l).
Proof. induction l as [|x l IH]; simpl; [reflexivity|rewrite IH; reflexivity]. Qed.


Lemma map_unwrap_ok_exit {A E} (debug : E -> string) (rs : list (result A E)) x :
  snd (map_unwrap_ok debug rs) = Exit x -> exists m, x = Panic m.
Proof.
  induction rs as [|[a|e] rs IH]; simpl; intro H.
  - discriminate.
  - destruct (map_unwrap_ok debug rs) as [tr [l|y]]; simpl in *; [discriminate|].
    apply IH. exact H.
  - injection H as <-. eauto.
Qed.

Lemma check_urls_trace (urls : list string) : fst (check_urls urls) = [].
Proof.
  unfold check_urls.
  pose proof (map_unwrap_ok_trace url_error_debug (map parse_rtmp_url urls)) as H.
  destruct (map_unwrap_ok url_error_debug (map parse_rtmp_url urls)) as [tr o].
  destruct (find is_err (map parse_rtmp_url urls)) as [[u|e]|]; simpl in *; auto.
Qed.

Lemma check_urls_exit (urls : list string) tr x :
  check_urls urls = (tr, Exit x) -> exists m, x = Panic m.
Proof.
  unfold check_urls.
  pose proof (map_unwrap_ok_exit url_error_debug (map parse_rtmp_url urls)) as H.
  destruct (map_unwrap_ok url_error_debug (map parse_rtmp_url urls)) as [t o].
  simpl in H.
  destruct (find is_err (map parse_rtmp_url urls)) as [[u|e]|]; simpl; intro Hx;
    try (injection Hx as _ Hx; subst o; apply H; reflexivity).
  injection Hx as _ <-. eauto.
Qed.

Lemma forallb_map {A B} (f : B -> bool) (g : A -> B) (l : list A) :
  forallb f (map g l) = forallb (fun x => f (g x)) l.
Proof. induction l as [|x l IH]; simpl; congruence. Qed.

Lemma find_first_err {A E} (pre : list (result A E)) (e : E) post :
  forallb (fun r => negb (is_err r)) pre = true ->
  find is_err (pre ++ Err e :: post) = Some (Err e).
Proof.
  induction pre as [|[a|e'] pre IH]; simpl; intro H; auto. discriminate.
Qed.

Lemma check_urls_ok (urls : list string) :
  forallb (fun u => negb (is_err (parse_rtmp_url u))) urls = true ->
  check_urls urls = ([], Continue (oks (map parse_rtmp_url urls))).
Proof.
  intro H. unfold check_urls.
  assert (Hall : forallb (fun r => negb (is_err r)) (map parse_rtmp_url urls) = true).
  { rewrite forallb_map. exact H. }
  assert (Hf : find is_err (map parse_rtmp_url urls) = None).
  { induction urls as [|u us IH]; simpl in *; auto.
    destruct (parse_rtmp_url u); simpl in *; [apply IH; auto | discriminate]. }
  rewrite Hf. simpl. rewrite map_unwrap_ok_oks by exact Hall. reflexivity.
Qed.

Lemma check_urls_first_error (pre : list string) (u : string) post e :
  forallb (fun s => negb (is_err (parse_rtmp_url s))) pre = true ->
  parse_rtmp_url u = Err e ->
  check_urls (pre ++ u :: post)%list =
  ([], Exit (Panic ("RTMP url error: " ++ url_error_to_string e))).
Proof.
  intros Hpre Hu. unfold check_urls. rewrite map_app. simpl. rewrite Hu.
  rewrite find_first_err by (rewrite forallb_map; exact Hpre). reflexivity.
Qed.

Lemma resolve_urls_trace (env : Env) (a : Args) :
  fst (resolve_urls env a) = [] \/
  exists p, fst (resolve_urls env a) = [OpenDestList p].
Proof.
  unfold resolve_urls.
  destruct (arg_prefix a) as [prefix|].
  - left. destruct (arg_concurrency a) as [c|]; simpl; auto.
    destruct (from_str_usize c); reflexivity.
  - destruct (arg_dest_list_file a) as [p|]; simpl; auto.
    right. exists p. destruct (fs_read env p) as [[contents err]|]; simpl; auto.
    pose proof (map_unwrap_ok_trace io_error_debug (read_lines contents err)) as H.
    destruct (map_unwrap_ok io_error_debug (read_lines contents err)) as [t o].
    simpl in *. subst. reflexivity.
Qed.

Lemma resolve_urls_exit (env : Env) (a : Args) tr x :
  resolve_urls env a = (tr, Exit x) -> x = IoError \/ exists m, x = Panic m.
Proof.
  unfold resolve_urls.
  destruct (arg_prefix a) as [prefix|].
  - destruct (arg_concurrency a) as [c|]; simpl; [|discriminate].
    destruct (from_str_usize c); simpl; intro H; [discriminate|].
    injection H as _ <-. eauto.
  - destruct (arg_dest_list_file a) as [p|]; simpl.
    + destruct (fs_read env p) as [[contents err]|]; simpl; intro H.
      * pose proof (map_unwrap_ok_exit io_error_debug (read_lines contents err) x) as Hx.
        destruct (map_unwrap_ok io_error_debug (read_lines contents err)) as [t o].
        simpl in *. injection H as _ H. subst o. right. apply Hx. reflexivity.
      * injection H as _ <-. auto.
    + intro H. injection H as _ <-. eauto.
Qed.

Lemma destinations_quiet (env : Env) (a : Args) :
  quiet (fst (destinations env a)) = true.
Proof.
  unfold destinations.
  destruct (resolve_urls_trace env a) as [H|[p H]];
  destruct (resolve_urls env a) as [tr [urls|x]]; simpl in H; subst;
  try rewrite bind_Continue, check_urls_trace; reflexivity.
Qed.

Lemma preflight_quiet (env : Env) (a : Args) :
  quiet (fst (preflight env a)) = true.
Proof.
  unfold preflight, get_matches.
  destruct (get_matches_ok a); [|reflexivity].
  simpl.
  pose proof (destinations_quiet env a) as Hq.
  destruct (destinations env a) as [td [urls|x]]; simpl in *; auto.
  destruct (arg_input a) as [input|]; simpl; rewrite ?app_nil_r; auto.
  unfold assert_. destruct (flv_name_ok input); simpl; rewrite ?app_nil_r; auto.
Qed.

Lemma preflight_spec (env : Env) (a : Args) :
  preflight env a =
  if get_matches_ok a then
    match destinations env a with
    | (td, Exit x) => (td, Exit x)
    | (td, Continue urls) =>
        match arg_input a with
        | None => (td, Exit (Panic "called `Option::unwrap()` on a `None` value"))
        | Some input =>
            if flv_name_ok input
            then (td, Continue (urls, input, arg_repeat a))
            else (td, Exit (Panic "Only FLV files are supported"))
        end
    end
  else ([], Exit UsageError).
Proof.
  unfold preflight, get_matches.
  destruct (get_matches_ok a); [|reflexivity].
  simpl.
  destruct (destinations env a) as [td [urls|x]]; simpl; auto.
  destruct (arg_input a) as [input|]; simpl; rewrite ?app_nil_r; auto.
  unfold assert_. destruct (flv_name_ok input); simpl; rewrite ?app_nil_r; reflexivity.
Qed.

(** The pre-flight steps end in a usage error, an I/O error or a panic. *)
Lemma preflight_exit (env : Env) (a : Args) tp x :
  preflight env a = (tp, Exit x) ->
  x = UsageError \/ x = IoError \/ exists m, x = Panic m.
Proof.
  rewrite preflight_spec.
  destruct (get_matches_ok a); [|intro H; injection H as _ <-; auto].
  destruct (destinations env a) as [td [urls|y]] eqn:Hd.
  - destruct (arg_input a) as [input|]; [destruct (flv_name_ok input)|]; intro H;
      try discriminate; injection H as _ <-; eauto.
  - intro H. injection H as _ <-. right.
    revert Hd. unfold destinations.
    destruct (resolve_urls env a) as [tr [us|z]] eqn:Hr.
    + rewrite bind_Continue. intro Hd. injection Hd as _ Hd.
      destruct (check_urls us) as [tc oc] eqn:Hc. simpl in Hd. subst oc.
      right. apply (check_urls_exit us tc). exact Hc.
    + intro Hd. injection Hd as _ <-. apply (resolve_urls_exit env a tr). exact Hr.
Qed.

Lemma sent_packets_app (t1 t2 : list event) :
  sent_packets (t1 ++ t2) = (sent_packets t1 ++ sent_packets t2)%list.
Proof. induction t1 as [|[] t1 IH]; simpl; try rewrite IH; reflexivity. Qed.

Lemma subscriptions_app (t1 t2 : list event) :
  subscriptions (t1 ++ t2) = (subscriptions t1 ++ subscriptions t2)%list.
Proof. induction t1 as [|[] t1 IH]; simpl; try rewrite IH; reflexivity. Qed.

Lemma connections_app (t1 t2 : list event) :
  connections (t1 ++ t2) = (connections t1 ++ connections t2)%list.
Proof. induction t1 as [|[] t1 IH]; simpl; try rewrite IH; reflexivity. Qed.

Lemma quiet_silent (tr : list event) :
  quiet tr = true ->
  sent_packets tr = [] /\ subscriptions tr = [] /\ connections tr = [].
Proof. induction tr as [|[] tr IH]; simpl; intro H; try discriminate; auto. Qed.

Lemma send_or_log_no_clients (tr : list event) :
  forallb send_or_log tr = true -> subscriptions tr = [] /\ connections tr = [].
Proof. induction tr as [|[] tr IH]; simpl; intro H; try discriminate; auto. Qed.

Lemma map_Subscribe_events (l : list nat) :
  subscriptions (map Subscribe l) = l /\ connections (map Subscribe l) = [] /\
  sent_packets (map Subscribe l) = [].
Proof. induction l as [|k l IH]; simpl; intuition congruence. Qed.

Lemma client_events_of (env : Env) (cs : list (nat * Url)) :
  subscriptions (flat_map (client_events env) cs) = [] /\
  connections (flat_map (client_events env) cs) = cs /\
  sent_packets (flat_map (client_events env) cs) = [].
Proof. induction cs as [|[k u] cs IH]; simpl; intuition congruence. Qed.

Lemma end_log_events (o : outcome unit) :
  forallb send_or_log (end_log o) = true /\ sent_packets (end_log o) = [].
Proof. destruct o; simpl; auto. Qed.

Lemma serve_trace_sent (env : Env) rep urls msgs :
  sent_packets (serve_trace env rep urls msgs) =
  sent_packets (fst (broadcast env (serve_hub urls) rep msgs 0)).
Proof.
  unfold serve_trace.
  rewrite !sent_packets_app. simpl. rewrite sent_packets_app.
  rewrite (proj2 (proj2 (map_Subscribe_events _))), (proj2 (proj2 (client_events_of _ _))).
  rewrite (proj2 (end_log_events _)).
  simpl. rewrite app_nil_r. reflexivity.
Qed.

(** With the receiver [_rx] held, [tx.receiver_count()] never drops to 0:
    every packet before the first decode error is sent, and the loop ends
    at that error, or at the end of the pass, where [--repeat] goes on. *)
Lemma broadcast_rx_held (env : Env) (hub : Hub) (repeat : bool) msgs :
  rx_held hub = true -> forall i,
  sent_packets (fst (broadcast env hub repeat msgs i)) = ok_prefix msgs /\
  snd (broadcast env hub repeat msgs i)
    = (if repeat && forallb (fun r => negb (is_err r)) msgs
       then Exit StillRunning else Continue tt).
Proof.
  intro Hrx. induction msgs as [|[p|d] msgs IH]; intro i; simpl.
  - destruct repeat; auto.
  - unfold receiver_count. rewrite Hrx. simpl.
    specialize (IH (S i)). destruct (broadcast env hub repeat msgs (S i)) as [tr o].
    simpl in *. destruct IH as [IH1 IH2]. rewrite IH1, IH2. auto.
  - rewrite andb_false_r. auto.
Qed.

Lemma serve_trace_sends (env : Env) rep urls msgs :
  sent_packets (serve_trace env rep urls msgs) = ok_prefix msgs.
Proof. rewrite serve_trace_sent. apply broadcast_rx_held. reflexivity. Qed.

Lemma ok_prefix_map_Ok (ps : list PacketType) d rest :
  ok_prefix (map Ok ps) = ps /\ ok_prefix (map Ok ps ++ Err d :: rest)%list = ps.
Proof. induction ps as [|p ps IH]; simpl; [auto|destruct IH as [-> ->]; auto]. Qed.

Lemma split_at_first {A} (x : A) (X : list A) : forall Y pre post,
  ~ In x X -> (X ++ Y)%list = (pre ++ x :: post)%list ->
  exists m, pre = (X ++ m)%list /\ Y = (m ++ x :: post)%list.
Proof.
  induction X as [|y X IH]; intros Y pre post Hx H; simpl in *.
  - exists pre. auto.
  - destruct pre as [|z pre]; simpl in H; injection H as H1 H2.
    + subst. exfalso. apply Hx. left. reflexivity.
    + subst z. destruct (IH Y pre post) as [m [Hm1 Hm2]]; auto.
      exists m. subst. auto.
Qed.

Lemma in_seq_combine (k : nat) (urls : list Url) : forall s,
  In k (seq s (List.length urls)) ->
  exists u, In (k, u) (combine (seq s (List.length urls)) urls).
Proof.
  induction urls as [|u us IH]; intros s H; simpl in *; [contradiction|].
  destruct H as [H|H].
  - subst. exists u. left. reflexivity.
  - destruct (IH (S s) H) as [v Hv]. exists v. right. exact Hv.
Qed.

Lemma all_ok_oks_length (l : list string) :
  forallb (fun s => negb (is_err (parse_rtmp_url s))) l = true ->
  List.length (oks (map parse_rtmp_url l)) = List.length l.
Proof.
  induction l as [|s l IH]; simpl; intro H; auto.
  destruct (parse_rtmp_url s); simpl in *; [f_equal; apply IH; exact H|discriminate].
Qed.

End Lemmas.

Section StringLemmas.

Lemma str_app_nil_r (s : string) : (s ++ EmptyString) = s.
Proof. induction s as [|c s IH]; simpl; congruence. Qed.

Lemma str_app_assoc (a b c : string) : ((a ++ b) ++ c) = (a ++ (b ++ c)).
Proof. induction a as [|x a IH]; simpl; congruence. Qed.

Lemma str_length_app (a b : string) :
  String.length (a ++ b) = String.length a + String.length b.
Proof. induction a as [|x a IH]; simpl; congruence. Qed.

Lemma substring_whole (s : string) : substring 0 (String.length s) s = s.
Proof. induction s as [|c s IH]; simpl; congruence. Qed.

Lemma substring_app_l (a b : string) : substring 0 (String.length a) (a ++ b) = a.
Proof. induction a as [|x a IH]; simpl; [destruct b; reflexivity|congruence]. Qed.

Lemma substring_app_r (a b : string) :
  substring (String.length a) (String.length b) (a ++ b) = b.
Proof. induction a as [|x a IH]; simpl; [apply substring_whole|exact IH]. Qed.

Lemma strip_cr_app_cr (l : string) : strip_cr (l ++ cr) = l.
Proof.
  unfold strip_cr. fold cr. unfold ends_with. rewrite str_length_app.
  replace (String.length l + String.length cr - String.length cr) with (String.length l) by lia.
  rewrite substring_app_r.
  replace (Nat.leb (String.length cr) (String.length l + String.length cr)) with true
    by (symmetry; apply Nat.leb_le; lia).
  simpl. replace (String.length l + 1 - 1) with (String.length l) by lia.
  apply substring_app_l.
Qed.

Lemma strip_cr_no_cr (l : string) : ends_with l cr = false -> strip_cr l = l.
Proof. unfold strip_cr. fold cr. intro H. rewrite H. reflexivity. Qed.

Lemma no_newline_app (a b : string) :
  no_newline (a ++ b) = no_newline a && no_newline b.
Proof. induction a as [|x a IH]; simpl; [|rewrite IH, andb_assoc]; reflexivity. Qed.

Lemma utf8_valid_app_aux (n : nat) : forall l t,
  String.length l <= n -> utf8_valid l = true -> utf8_valid (l ++ t) = utf8_valid t.
Proof.
  induction n as [|n IH]; intros l t Hlen Hv; destruct l as [|c1 r1]; try reflexivity;
    simpl in Hlen; [lia|].
  simpl in Hv |- *.
  destruct (Nat.ltb (nat_of_ascii c1) 128); [apply IH; [lia|exact Hv]|].
  destruct (byte_in 194 223 c1).
  { destruct r1 as [|c2 r2]; [discriminate|]. simpl in Hv, Hlen |- *.
    apply andb_prop in Hv as [H1 H2]. rewrite H1, (IH r2 t) by (auto; lia). reflexivity. }
  destruct (byte_in 224 239 c1).
  { destruct r1 as [|c2 [|c3 r3]]; try discriminate. simpl in Hv, Hlen |- *.
    apply andb_prop in Hv as [H1 H2]. rewrite H1, (IH r3 t) by (auto; lia). reflexivity. }
  destruct (byte_in 240 244 c1); [|discriminate].
  destruct r1 as [|c2 [|c3 [|c4 r4]]]; try discriminate. simpl in Hv, Hlen |- *.
  apply andb_prop in Hv as [H1 H2]. rewrite H1, (IH r4 t) by (auto; lia). reflexivity.
Qed.

Lemma utf8_valid_app (l t : string) :
  utf8_valid l = true -> utf8_valid (l ++ t) = utf8_valid t.
Proof. intro H. apply (utf8_valid_app_aux (String.length l)); [lia|exact H]. Qed.

Lemma read_lines_aux_line (l rest cur : string) err :
  no_newline l = true ->
  read_lines_aux (l ++ String "010" rest) cur err =
  read_line_item ((cur ++ l) ++ nl) (strip_cr (cur ++ l)) :: read_lines_aux rest EmptyString err.
Proof.
  revert cur. induction l as [|c l IH]; intros cur Hl; simpl.
  - rewrite str_app_nil_r. reflexivity.
  - simpl in Hl. apply andb_prop in Hl as [Hc Hl].
    destruct (Ascii.eqb c "010"); [discriminate|].
    rewrite IH by exact Hl. rewrite !str_app_assoc. reflexivity.
Qed.

Lemma uint_to_string_inj (d1 d2 : Decimal.uint) :
  uint_to_string d1 = uint_to_string d2 -> d1 = d2.
Proof.
  revert d2. induction d1; intros d2 H; destruct d2; simpl in H;
    try discriminate; try reflexivity; injection H as H; f_equal; auto.
Qed.

Lemma usize_to_string_inj (m n : nat) : usize_to_string m = usize_to_string n -> m = n.
Proof. intro H. apply Unsigned.to_uint_inj, uint_to_string_inj, H. Qed.

Lemma str_app_inj_l (p s1 s2 : string) : (p ++ s1) = (p ++ s2) -> s1 = s2.
Proof. induction p as [|c p IH]; simpl; intro H; [exact H|injection H; auto]. Qed.

Lemma NoDup_map_injective {A B} (f : A -> B) (l : list A) :
  (forall x y, f x = f y -> x = y) -> NoDup l -> NoDup (map f l).
Proof.
  intros Hf Hl. induction Hl as [|x l Hx Hl IH]; simpl; constructor; auto.
  intro Hin. apply in_map_iff in Hin as [y [Hy Hin]].
  apply Hf in Hy. subst. contradiction.
Qed.

End StringLemmas.

Section RunLemmas.

Lemma destinations_trace (env : Env) (a : Args) :
  fst (destinations env a) = fst (resolve_urls env a).
Proof.
  unfold destinations. destruct (resolve_urls env a) as [tr [urls|x]]; [|reflexivity].
  rewrite bind_Continue, check_urls_trace, app_nil_r. reflexivity.
Qed.

Lemma preflight_no_warn (env : Env) (a : Args) :
  forallb (fun e => negb (is_warn e)) (fst (preflight env a)) = true.
Proof.
  rewrite preflight_spec.
  assert (H : forallb (fun e => negb (is_warn e)) (fst (destinations env a)) = true).
  { rewrite destinations_trace.
    destruct (resolve_urls_trace env a) as [H|[p H]]; rewrite H; reflexivity. }
  destruct (get_matches_ok a); [|reflexivity].
  destruct (destinations env a) as [td [urls|x]]; simpl in *; [|exact H].
  destruct (arg_input a) as [input|]; [destruct (flv_name_ok input)|]; exact H.
Qed.

(** With [_rx] held, the broadcast loop does nothing but send. *)
Lemma broadcast_only_sends (env : Env) (hub : Hub) repeat msgs :
  rx_held hub = true -> forall i, forallb is_send (fst (broadcast env hub repeat msgs i)) = true.
Proof.
  intro Hrx. induction msgs as [|[msg|d] msgs IH]; intro i; simpl.
  - destruct repeat; reflexivity.
  - unfold receiver_count. rewrite Hrx. simpl.
    specialize (IH (S i)). destruct (broadcast env hub repeat msgs (S i)). simpl in *. exact IH.
  - reflexivity.
Qed.

Lemma serve_trace_no_warn (env : Env) rep urls msgs :
  forallb (fun e => negb (is_warn e)) (serve_trace env rep urls msgs) = true.
Proof.
  unfold serve_trace. cbv zeta. rewrite !forallb_app. simpl. rewrite forallb_app.
  assert (H1 : forall l, forallb (fun e => negb (is_warn e)) (map Subscribe l) = true)
    by (induction l; simpl; auto).
  assert (H2 : forall cs, forallb (fun e => negb (is_warn e)) (flat_map (client_events env) cs) = true)
    by (induction cs as [|[k u] cs IH]; simpl; auto).
  assert (H3 : forall tr, forallb is_send tr = true ->
                          forallb (fun e => negb (is_warn e)) tr = true).
  { induction tr as [|[] tr IH]; simpl; intro H; try discriminate; auto. }
  assert (H4 : forall o, forallb (fun e => negb (is_warn e)) (end_log o) = true)
    by (destruct o; reflexivity).
  rewrite H1, H2, H4, H3 by (apply broadcast_only_sends; reflexivity). reflexivity.
Qed.

Lemma serve_trace_clients (env : Env) rep urls msgs :
  subscriptions (serve_trace env rep urls msgs) = seq 0 (List.length urls) /\
  connections (serve_trace env rep urls msgs) = combine (seq 0 (List.length urls)) urls.
Proof.
  unfold serve_trace. cbv zeta.
  pose proof (broadcast_spec env (serve_hub urls) rep msgs 0) as [_ HB].
  pose proof (end_log_events (snd (broadcast env (serve_hub urls) rep msgs 0))) as [HE _].
  destruct (broadcast env (serve_hub urls) rep msgs 0) as [tb o]. simpl in *.
  assert (HB' : forallb send_or_log (tb ++ end_log o) = true)
    by (rewrite forallb_app, HB, HE; reflexivity).
  destruct (send_or_log_no_clients _ HB') as [HBs HBc].
  destruct (map_Subscribe_events (seq 0 (List.length urls))) as [HSs [HSc _]].
  destruct (client_events_of env (combine (seq 0 (List.length urls)) urls)) as [HCs [HCc _]].
  rewrite !subscriptions_app, !connections_app. simpl.
  rewrite HSs, HSc, HCs, HCc, HBs, HBc, !app_nil_r. auto.
Qed.

Lemma serve_trace_end (env : Env) rep urls msgs :
  snd (broadcast env (serve_hub urls) rep msgs 0) = Continue tt ->
  exists tr, serve_trace env rep urls msgs = (tr ++ [Log Info "End"])%list.
Proof.
  intro H. unfold serve_trace. cbv zeta. rewrite H.
  exists (map Subscribe (seq 0 (List.length urls))
          ++ flat_map (client_events env) (combine (seq 0 (List.length urls)) urls)
          ++ Log Info "All publish clients are ready"
          :: fst (broadcast env (serve_hub urls) rep msgs 0))%list.
  rewrite <- !app_assoc. reflexivity.
Qed.

Lemma run_clients (env : Env) (a : Args) tp urls input rep msgs :
  preflight env a = (tp, Continue (urls, input, rep)) ->
  flv_stream env input rep = Some msgs ->
  subscriptions (fst (run env a)) = seq 0 (List.length urls) /\
  connections (fst (run env a)) = combine (seq 0 (List.length urls)) urls.
Proof.
  intros Hpre Hflv.
  pose proof (preflight_quiet env a) as Hq. rewrite Hpre in Hq. simpl in Hq.
  destruct (quiet_silent tp Hq) as [_ [Hts Htc]].
  destruct (serve_trace_clients env rep urls msgs) as [Hs Hc].
  rewrite run_spec, Hpre, Hflv. simpl.
  rewrite subscriptions_app, connections_app, Hts, Htc. simpl.
  rewrite Hs, Hc. auto.
Qed.

(** Once the input is open, the run sends the packets before the first
    decode error; it returns [Ok(())] unless [--repeat] is on and the pass
    has no decode error, in which case it is still going. *)
Lemma run_status (env : Env) (a : Args) tp urls input rep msgs :
  preflight env a = (tp, Continue (urls, input, rep)) ->
  flv_stream env input rep = Some msgs ->
  snd (run env a) = (if rep && forallb (fun r => negb (is_err r)) msgs
                     then StillRunning else Success) /\
  sent_packets (fst (run env a)) = ok_prefix msgs.
Proof.
  intros Hpre Hflv.
  pose proof (preflight_quiet env a) as Hq. rewrite Hpre in Hq. simpl in Hq.
  destruct (quiet_silent tp Hq) as [Htp _].
  destruct (broadcast_rx_held env (serve_hub urls) rep msgs eq_refl 0) as [_ Hst].
  rewrite run_spec, Hpre, Hflv. simpl. rewrite Hst. split.
  - destruct (rep && forallb (fun r => negb (is_err r)) msgs); reflexivity.
  - rewrite sent_packets_app, Htp. simpl. apply serve_trace_sends.
Qed.

End RunLemmas.

(** * Claims *)

(** ** C1 *)

(** C1 (counterexample): with two malformed destinations in the list file,
    the run aborts with a panic whose message reports only the parse error
    of the first one; the second error is not in the message. *)
Lemma url_errors_not_all_reported :
  run (env_of two_bad_dests three_tags true true) (list_args "bench.flv")
    = ([OpenDestList "dests.txt"],
       Panic "RTMP url error: invalid RTMP url `rtmp:/h/app/a`: the scheme must be rtmp")
  /\ parse_rtmp_url "http://h/app/b"
       = Err (mkUrlParseError "http://h/app/b" "the scheme must be rtmp")
  /\ contains "invalid RTMP url `http://h/app/b`: the scheme must be rtmp"
       "RTMP url error: invalid RTMP url `rtmp:/h/app/a`: the scheme must be rtmp" = false.
Proof. split; [|split]; vm_compute; reflexivity. Qed.

(** C1 (amended): when the resolved destination list contains a malformed
    URL, every entry is parsed and the run aborts with a panic that reports
    the first parse failure in list order, before the input file is opened
    and before any network activity (the trace holds at most the opening of
    the destination list file). *)
Theorem url_error_aborts_with_first_error (env : Env) (a : Args) (tr : list event)
  (pre : list string) (u : string) (post : list string) (e : UrlParseError) :
  get_matches_ok a = true ->
  resolve_urls env a = (tr, Continue (pre ++ u :: post)%list) ->
  forallb (fun s => negb (is_err (parse_rtmp_url s))) pre = true ->
  parse_rtmp_url u = Err e ->
  run env a = (tr, Panic ("RTMP url error: " ++ url_error_to_string e)) /\ quiet tr = true.
Proof.
  intros Hclap Hres Hpre Hu.
  assert (Hq : quiet tr = true).
  { destruct (resolve_urls_trace env a) as [H|[p H]]; rewrite Hres in H; simpl in H;
      subst; reflexivity. }
  split; [|exact Hq].
  rewrite run_spec, preflight_spec, Hclap. unfold destinations. rewrite Hres.
  rewrite bind_Continue, (check_urls_first_error pre u post e Hpre Hu). simpl.
  rewrite app_nil_r. reflexivity.
Qed.

Lemma url_error_aborts_with_first_error_witness :
  get_matches_ok (list_args "bench.flv") = true /\
  resolve_urls (env_of two_bad_dests three_tags true true) (list_args "bench.flv")
    = ([OpenDestList "dests.txt"], Continue (([] ++ "rtmp:/h/app/a" :: ["http://h/app/b"])%list)) /\
  run (env_of two_bad_dests three_tags true true) (list_args "bench.flv")
    = ([OpenDestList "dests.txt"],
       Panic ("RTMP url error: "
              ++ url_error_to_string (mkUrlParseError "rtmp:/h/app/a" "the scheme must be rtmp")))
  /\ quiet [OpenDestList "dests.txt"] = true.
Proof.
  split; [reflexivity|split; [vm_compute; reflexivity|]].
  apply (url_error_aborts_with_first_error (env_of two_bad_dests three_tags true true)
           (list_args "bench.flv") [OpenDestList "dests.txt"] [] "rtmp:/h/app/a"
           ["http://h/app/b"]); vm_compute; reflexivity.
Defined.

(** ** C2 *)

(** C2 (counterexample): a decode error in the second tag ends the broadcast
    loop: the packets after it are never published, and the run returns
    success. *)
Lemma decode_error_not_skipped :
  sent_packets (fst corrupt_run) = [pkt_video0]
  /\ ~ In pkt_audio40 (sent_packets (fst corrupt_run))
  /\ snd corrupt_run = Success.
Proof.
  assert (H : sent_packets (fst corrupt_run) = [pkt_video0]) by (vm_compute; reflexivity).
  rewrite H. split; [reflexivity|split].
  - intros [Hc|[]]. discriminate.
  - vm_compute. reflexivity.
Qed.

(** C2 (amended): when the packet stream yields a decode error item after
    the packets [ps], the broadcast loop publishes every packet of [ps], in
    order, and ends at the error item: no packet after it is published, no
    warning is logged, the run logs "End" as its last event and returns
    success. *)
Theorem decode_error_ends_broadcast (env : Env) (a : Args) tp urls input rep
  (ps : list PacketType) (d : DecodeError) rest :
  preflight env a = (tp, Continue (urls, input, rep)) ->
  flv_stream env input rep = Some (map Ok ps ++ Err d :: rest)%list ->
  snd (run env a) = Success /\
  sent_packets (fst (run env a)) = ps /\
  forallb (fun e => negb (is_warn e)) (fst (run env a)) = true /\
  exists tr, fst (run env a) = (tr ++ [Log Info "End"])%list.
Proof.
  intros Hpre Hflv.
  assert (Hall : forallb (fun r => negb (is_err r)) (map Ok ps ++ Err d :: rest)%list = false).
  { rewrite forallb_app. simpl. apply andb_false_r. }
  destruct (run_status env a tp urls input rep _ Hpre Hflv) as [Hst Hsent].
  rewrite Hall, andb_false_r in Hst.
  split; [exact Hst|split; [rewrite Hsent; apply ok_prefix_map_Ok|split]].
  - pose proof (preflight_no_warn env a) as Hw. rewrite Hpre in Hw. simpl in Hw.
    rewrite run_spec, Hpre, Hflv. simpl.
    rewrite forallb_app, Hw. simpl. apply serve_trace_no_warn.
  - destruct (broadcast_rx_held env (serve_hub urls) rep (map Ok ps ++ Err d :: rest)%list
                eq_refl 0) as [_ Hb].
    rewrite Hall, andb_false_r in Hb.
    destruct (serve_trace_end env rep urls _ Hb) as [tr Htr].
    rewrite run_spec, Hpre, Hflv. simpl. rewrite Htr.
    exists (tp ++ OpenInput input rep :: tr)%list. rewrite <- app_assoc. reflexivity.
Qed.

Lemma decode_error_ends_broadcast_witness :
  preflight (env_of one_dest corrupt_stream true true) (list_args "bench.flv")
    = ([OpenDestList "dests.txt"],
       Continue ([mkUrl "h" 1935 "app" "a"], "bench.flv", false)) /\
  flv_stream (env_of one_dest corrupt_stream true true) "bench.flv" false
    = Some (map Ok [pkt_video0] ++ Err (mkDecodeError "invalid tag header")
                                   :: [Ok pkt_audio40; Ok pkt_video90])%list /\
  (snd corrupt_run = Success /\
   sent_packets (fst corrupt_run) = [pkt_video0] /\
   forallb (fun e => negb (is_warn e)) (fst corrupt_run) = true /\
   exists tr, fst corrupt_run = (tr ++ [Log Info "End"])%list).
Proof.
  split; [vm_compute; reflexivity|split; [reflexivity|]].
  apply (decode_error_ends_broadcast (env_of one_dest corrupt_stream true true)
           (list_args "bench.flv") [OpenDestList "dests.txt"] [mkUrl "h" 1935 "app" "a"]
           "bench.flv" false [pkt_video0] (mkDecodeError "invalid tag header")
           [Ok pkt_audio40; Ok pkt_video90]); vm_compute; reflexivity.
Defined.

(** ** C3 *)

(** C3 (code bug): the only client fails its setup and drops its receiver,
    yet all three packets are sent, each to one receiver (the [_rx] binding
    of [main]); the zero-receiver exit of the loop is never taken. *)
Theorem packets_sent_after_all_clients_gone :
  sent_packets (fst clients_gone_run) = [pkt_video0; pkt_audio40; pkt_video90]
  /\ In (SetupDone 0 false) (fst clients_gone_run)
  /\ In (Send pkt_video90 1) (fst clients_gone_run)
  /\ ~ In (Log Warn "No publish client exists, quit") (fst clients_gone_run)
  /\ snd clients_gone_run = Success.
Proof.
  vm_compute. split; [reflexivity|split; [|split; [|split]]].
  - do 4 right. left. reflexivity.
  - do 8 right. left. reflexivity.
  - intro H. repeat (destruct H as [H|H]; [discriminate|]). exact H.
  - reflexivity.
Qed.

(** ** C4 *)

(** C4: in every run, the first packet sent into the channel comes after
    the line ["All publish clients are ready"], which follows the completion
    of every client future; every subscription and every client setup of
    the run happens before that first send, and only sends and log lines
    follow it. *)
Theorem no_publish_before_all_clients_ready (env : Env) (a : Args)
  (pre : list event) (p : PacketType) (n : nat) (post : list event) :
  fst (run env a) = (pre ++ Send p n :: post)%list ->
  In (Log Info "All publish clients are ready") pre /\
  forallb send_or_log post = true /\
  (forall k, In (Subscribe k) (fst (run env a)) ->
     In (Subscribe k) pre /\ In (SetupDone k (setup_ok env k)) pre).
Proof.
  rewrite run_spec. pose proof (preflight_quiet env a) as Hq.
  destruct (preflight env a) as [tp [[[urls input] rep]|x]]; simpl in Hq.
  - destruct (flv_stream env input rep) as [msgs|]; simpl; intro H.
    + set (X := (tp ++ OpenInput input rep :: map Subscribe (seq 0 (List.length urls))
                 ++ flat_map (client_events env) (combine (seq 0 (List.length urls)) urls)
                 ++ [Log Info "All publish clients are ready"])%list).
      set (B := fst (broadcast env (serve_hub urls) rep msgs 0)).
      set (E := end_log (snd (broadcast env (serve_hub urls) rep msgs 0))).
      assert (HB : forallb send_or_log B = true)
        by apply (proj2 (broadcast_spec env _ rep msgs 0)).
      assert (HE : forallb send_or_log E = true) by apply end_log_events.
      assert (HX : (tp ++ OpenInput input rep :: serve_trace env rep urls msgs)%list
                   = (X ++ (B ++ E))%list).
      { unfold X, B, E, serve_trace. cbv zeta. rewrite <- !app_assoc.
        rewrite <- !app_comm_cons, <- !app_assoc. reflexivity. }
      assert (HnX : ~ In (Send p n) X).
      { unfold X. intro Hin. apply in_app_or in Hin as [Hin|Hin].
        - apply (proj1 (forallb_forall _ tp) Hq) in Hin. discriminate.
        - destruct Hin as [Hin|Hin]; [discriminate|].
          apply in_app_or in Hin as [Hin|Hin].
          + apply in_map_iff in Hin as [k [Hk _]]. discriminate.
          + apply in_app_or in Hin as [Hin|[Hin|[]]]; [|discriminate].
            apply in_flat_map in Hin as [[k u] [_ Hin]].
            simpl in Hin. destruct Hin as [Hin|[Hin|[]]]; discriminate. }
      rewrite HX in H |- *.
      destruct (split_at_first (Send p n) X (B ++ E) pre post HnX H)
        as [m [Hpre Hpost]].
      assert (Hpl : forallb send_or_log (m ++ Send p n :: post) = true).
      { rewrite <- Hpost, forallb_app, HB, HE. reflexivity. }
      rewrite forallb_app in Hpl. apply andb_prop in Hpl as [_ Hpl]. simpl in Hpl.
      split; [|split; [exact Hpl|]].
      * rewrite Hpre. apply in_or_app. left. unfold X.
        apply in_or_app. right. right. apply in_or_app. right.
        apply in_or_app. right. left. reflexivity.
      * intros k Hk. rewrite Hpre.
        apply in_app_or in Hk as [Hk|Hk].
        -- split; apply in_or_app; left; [exact Hk|].
           unfold X in Hk |- *. apply in_app_or in Hk as [Hk|Hk].
           { apply (proj1 (forallb_forall _ tp) Hq) in Hk. discriminate. }
           destruct Hk as [Hk|Hk]; [discriminate|].
           apply in_app_or in Hk as [Hk|Hk].
           ++ apply in_map_iff in Hk as [k' [Hk' Hin]]. injection Hk' as ->.
              destruct (in_seq_combine k urls 0 Hin) as [u Hu].
              apply in_or_app. right. right. apply in_or_app. right.
              apply in_or_app. left. apply in_flat_map. exists (k, u).
              split; [exact Hu|]. right. left. reflexivity.
           ++ exfalso. apply in_app_or in Hk as [Hk|[Hk|[]]]; [|discriminate].
              apply in_flat_map in Hk as [[k' u] [_ Hin]].
              simpl in Hin. destruct Hin as [Hin|[Hin|[]]]; discriminate.
        -- exfalso.
           assert (HBE : forallb send_or_log (B ++ E) = true)
             by (rewrite forallb_app, HB, HE; reflexivity).
           apply (proj1 (forallb_forall _ _) HBE) in Hk. discriminate.
    + exfalso.
      assert (Hs : In (Send p n) (tp ++ [OpenInput input rep])%list)
        by (rewrite H; apply in_or_app; right; left; reflexivity).
      apply in_app_or in Hs as [Hs|[Hs|[]]]; [|discriminate].
      apply (proj1 (forallb_forall _ tp) Hq) in Hs. discriminate.
  - simpl. intro H. exfalso.
    assert (Hs : In (Send p n) tp) by (rewrite H; apply in_or_app; right; left; reflexivity).
    apply (proj1 (forallb_forall _ tp) Hq) in Hs. discriminate.
Qed.

Lemma no_publish_before_all_clients_ready_witness :
  fst (run (env_of one_dest three_tags true true) (list_args "bench.flv"))
    = ([OpenDestList "dests.txt"; OpenInput "bench.flv" false; Subscribe 0;
        Connect 0 dest_a; SetupDone 0 true; Log Info "All publish clients are ready"]
       ++ Send pkt_video0 2
       :: [Send pkt_audio40 2; Send pkt_video90 2; Log Info "End"])%list /\
  (In (Log Info "All publish clients are ready")
      [OpenDestList "dests.txt"; OpenInput "bench.flv" false; Subscribe 0;
       Connect 0 dest_a; SetupDone 0 true; Log Info "All publish clients are ready"] /\
   forallb send_or_log [Send pkt_audio40 2; Send pkt_video90 2; Log Info "End"] = true /\
   (forall k, In (Subscribe k) (fst (run (env_of one_dest three_tags true true)
                                        (list_args "bench.flv"))) ->
      In (Subscribe k)
        [OpenDestList "dests.txt"; OpenInput "bench.flv" false; Subscribe 0;
         Connect 0 dest_a; SetupDone 0 true; Log Info "All publish clients are ready"] /\
      In (SetupDone k (setup_ok (env_of one_dest three_tags true true) k))
        [OpenDestList "dests.txt"; OpenInput "bench.flv" false; Subscribe 0;
         Connect 0 dest_a; SetupDone 0 true; Log Info "All publish clients are ready"])).
Proof.
  split; [vm_compute; reflexivity|].
  apply (no_publish_before_all_clients_ready (env_of one_dest three_tags true true)
           (list_args "bench.flv")
           [OpenDestList "dests.txt"; OpenInput "bench.flv" false; Subscribe 0;
            Connect 0 dest_a; SetupDone 0 true; Log Info "All publish clients are ready"]
           pkt_video0 2 [Send pkt_audio40 2; Send pkt_video90 2; Log Info "End"]).
  vm_compute. reflexivity.
Defined.

(** ** C5 *)

(** C5: with a destination list file that is read to its end as the [M]
    lines [ls] (every line valid UTF-8, no read error), all of which parse,
    and an input that passes the pre-flight checks and opens, the run
    subscribes exactly [M] receivers (one per line, numbered [0 .. M-1]),
    and the client of receiver [k] makes exactly one connection attempt, to
    the URL of line [k]. *)
Theorem list_file_one_publisher_per_line (env : Env) (a : Args) (path contents input : string)
  (err : option io_error) (ls : list string) (msgs : list (result PacketType DecodeError)) :
  get_matches_ok a = true ->
  arg_dest_list_file a = Some path ->
  arg_input a = Some input ->
  fs_read env path = Some (contents, err) ->
  read_lines contents err = map Ok ls ->
  forallb (fun l => negb (is_err (parse_rtmp_url l))) ls = true ->
  flv_name_ok input = true ->
  flv_stream env input (arg_repeat a) = Some msgs ->
  let M := List.length ls in
  let urls := oks (map parse_rtmp_url ls) in
  subscriptions (fst (run env a)) = seq 0 M /\
  connections (fst (run env a)) = combine (seq 0 M) urls /\
  List.length urls = M.
Proof.
  intros Hclap Hdest Hin Hfs Hlines Hok Hname Hflv M urls.
  assert (Hp : arg_prefix a = None).
  { unfold get_matches_ok in Hclap. rewrite Hdest in Hclap.
    destruct (arg_prefix a); [|reflexivity].
    destruct (arg_input a); simpl in Hclap; discriminate. }
  assert (Hres : resolve_urls env a = ([OpenDestList path], Continue ls)).
  { unfold resolve_urls. rewrite Hp, Hdest. simpl. rewrite Hfs. simpl.
    rewrite Hlines, map_unwrap_ok_map_Ok. reflexivity. }
  assert (Hd : destinations env a = ([OpenDestList path], Continue urls)).
  { unfold destinations. rewrite Hres, bind_Continue, check_urls_ok by exact Hok.
    reflexivity. }
  assert (Hlen : List.length urls = M) by (apply all_ok_oks_length; exact Hok).
  assert (Hpre : preflight env a = ([OpenDestList path], Continue (urls, input, arg_repeat a))).
  { rewrite preflight_spec, Hclap, Hd, Hin, Hname. reflexivity. }
  pose proof (run_clients env a _ urls input (arg_repeat a) msgs Hpre Hflv) as Hc.
  rewrite Hlen in Hc. destruct Hc as [Hc1 Hc2]. auto.
Qed.

Lemma list_file_one_publisher_per_line_witness :
  get_matches_ok (list_args "bench.flv") = true /\
  fs_read (env_of one_dest three_tags true true) "dests.txt" = Some (one_dest, None) /\
  read_lines one_dest None = map Ok ["rtmp://h/app/a"] /\
  forallb (fun l => negb (is_err (parse_rtmp_url l))) ["rtmp://h/app/a"] = true /\
  flv_name_ok "bench.flv" = true /\
  (subscriptions (fst (run (env_of one_dest three_tags true true) (list_args "bench.flv")))
     = seq 0 1 /\
   connections (fst (run (env_of one_dest three_tags true true) (list_args "bench.flv")))
     = combine (seq 0 1) (oks (map parse_rtmp_url ["rtmp://h/app/a"])) /\
   List.length (oks (map parse_rtmp_url ["rtmp://h/app/a"])) = 1).
Proof.
  split; [reflexivity|split; [reflexivity|split; [vm_compute; reflexivity|
    split; [vm_compute; reflexivity|split; [vm_compute; reflexivity|]]]]].
  apply (list_file_one_publisher_per_line (env_of one_dest three_tags true true)
           (list_args "bench.flv") "dests.txt" one_dest "bench.flv" None ["rtmp://h/app/a"]
           three_tags);
    vm_compute; reflexivity.
Defined.

(** ** C6 *)

(** C6: in prefix mode with a concurrency string that parses as [n], the
    destination URLs are exactly the [n] strings [prefix ++ "0"], ...,
    [prefix ++ "<n-1>"], in that order (numbers in decimal, as [format!]
    prints a [usize]). *)
Theorem prefix_mode_destinations (env : Env) (a : Args) (prefix c : string) (n : nat) :
  arg_prefix a = Some prefix ->
  arg_concurrency a = Some c ->
  parse_usize c = Some n ->
  exists urls,
    resolve_urls env a = ([], Continue urls) /\
    List.length urls = n /\
    (forall i, i < n -> nth i urls EmptyString = prefix ++ usize_to_string i).
Proof.
  intros Hp Hc Hn.
  exists (gen_urls prefix n). split; [|split].
  - assert (Hn' : from_str_usize c = Ok n).
    { unfold parse_usize in Hn. destruct (from_str_usize c); congruence. }
    unfold resolve_urls. rewrite Hp, Hc. simpl. rewrite Hn'. reflexivity.
  - unfold gen_urls. rewrite length_map, length_seq. reflexivity.
  - intros i Hi. unfold gen_urls.
    pose proof (map_nth (fun c => prefix ++ usize_to_string c) (seq 0 n) 0 i) as H.
    cbv beta in H.
    rewrite nth_indep with (d' := prefix ++ usize_to_string 0)
      by (rewrite length_map, length_seq; exact Hi).
    rewrite H, seq_nth by exact Hi. reflexivity.
Qed.

Lemma prefix_mode_destinations_witness :
  parse_usize "5" = Some 5 /\
  exists urls,
    resolve_urls (env_of "" three_tags true true)
      (prefix_args "5" "rtmp://x.example.com/app/s_") = ([], Continue urls) /\
    List.length urls = 5 /\
    (forall i, i < 5 -> nth i urls EmptyString = "rtmp://x.example.com/app/s_" ++ usize_to_string i).
Proof.
  split; [reflexivity|].
  apply (prefix_mode_destinations (env_of "" three_tags true true)
           (prefix_args "5" "rtmp://x.example.com/app/s_") "rtmp://x.example.com/app/s_" "5" 5);
    reflexivity.
Defined.

(** [format!("{}", c)] for a few [usize] values *)
Example usize_to_string_samples :
  map usize_to_string [0; 4; 10; 99; 1024] = ["0"; "4"; "10"; "99"; "1024"].
Proof. reflexivity. Qed.

(** ** C7 *)

(** C7 (counterexample): the check is two case-sensitive suffix tests, so a
    mixed-case extension such as [.Flv] is refused: the run panics with
    ["Only FLV files are supported"] before opening the input. *)
Lemma mixed_case_extension_rejected :
  flv_name_ok "bench.Flv" = false /\
  run (env_of one_dest three_tags true true) (list_args "bench.Flv")
    = ([OpenDestList "dests.txt"], Panic "Only FLV files are supported").
Proof. split; vm_compute; reflexivity. Qed.

(** C7 (amended): once the destinations are resolved, the run goes on to
    open the input exactly when its path ends with [".flv"] or [".FLV"];
    otherwise it panics with ["Only FLV files are supported"] before the
    input is opened and before any network activity. *)
Theorem flv_suffix_check_gates_run (env : Env) (a : Args) (td : list event)
  (urls : list Url) (input : string) :
  get_matches_ok a = true ->
  destinations env a = (td, Continue urls) ->
  arg_input a = Some input ->
  (ends_with input ".flv" || ends_with input ".FLV" = false ->
     run env a = (td, Panic "Only FLV files are supported") /\ quiet td = true) /\
  (ends_with input ".flv" || ends_with input ".FLV" = true ->
     exists tr', fst (run env a) = (td ++ OpenInput input (arg_repeat a) :: tr')%list).
Proof.
  intros Hclap Hd Hin.
  pose proof (destinations_quiet env a) as Hq. rewrite Hd in Hq. simpl in Hq.
  rewrite run_spec, preflight_spec, Hclap, Hd, Hin. unfold flv_name_ok.
  split; intro Hname; rewrite Hname.
  - auto.
  - destruct (flv_stream env input (arg_repeat a)) as [msgs|].
    + exists (serve_trace env (arg_repeat a) urls msgs). reflexivity.
    + exists []. reflexivity.
Qed.

Lemma flv_suffix_check_gates_run_witness :
  get_matches_ok (list_args "bench.FLV") = true /\
  destinations (env_of one_dest three_tags true true) (list_args "bench.FLV")
    = ([OpenDestList "dests.txt"], Continue [dest_a]) /\
  ((ends_with "bench.FLV" ".flv" || ends_with "bench.FLV" ".FLV" = false ->
      run (env_of one_dest three_tags true true) (list_args "bench.FLV")
        = ([OpenDestList "dests.txt"], Panic "Only FLV files are supported")
      /\ quiet [OpenDestList "dests.txt"] = true) /\
   (ends_with "bench.FLV" ".flv" || ends_with "bench.FLV" ".FLV" = true ->
      exists tr', fst (run (env_of one_dest three_tags true true) (list_args "bench.FLV"))
        = ([OpenDestList "dests.txt"] ++ OpenInput "bench.FLV" false :: tr')%list)).
Proof.
  split; [reflexivity|split; [vm_compute; reflexivity|]].
  apply (flv_suffix_check_gates_run (env_of one_dest three_tags true true)
           (list_args "bench.FLV") [OpenDestList "dests.txt"] [dest_a] "bench.FLV");
    vm_compute; reflexivity.
Defined.

(** ** C8 *)

(** C8: when both destination modes are given (a prefix or a concurrency,
    together with a list file), or neither (no prefix and no list file),
    the run fails with a non-zero exit status before any effect at all:
    clap rejects the first case; in the second, [main] panics on the
    missing list file path (or clap rejects a missing [--input]). *)
Theorem destination_modes_exclusive_and_required (env : Env) (a : Args) :
  ((arg_prefix a <> None \/ arg_concurrency a <> None) /\ arg_dest_list_file a <> None)
  \/ (arg_prefix a = None /\ arg_dest_list_file a = None) ->
  exists x, run env a = ([], x) /\ x <> Success /\
            exists code, exit_code x = Some code /\ code <> 0.
Proof.
  intro Hmode. rewrite run_spec, preflight_spec.
  destruct a as [inp rep conc pre dest]; simpl in *.
  destruct Hmode as [[Hpc Hd]|[Hp Hd]].
  - destruct dest as [d|]; [|congruence].
    assert (Hc : get_matches_ok (mkArgs inp rep conc pre (Some d)) = false).
    { unfold get_matches_ok; simpl.
      destruct inp, pre, conc; simpl; auto; destruct Hpc; congruence. }
    rewrite Hc. exists UsageError.
    repeat split; try discriminate; eexists; split; [reflexivity|discriminate].
  - subst pre dest.
    destruct (get_matches_ok (mkArgs inp rep conc None None)).
    + exists (Panic "called `Option::unwrap()` on a `None` value").
      repeat split; try discriminate; eexists; split; [reflexivity|discriminate].
    + exists UsageError.
      repeat split; try discriminate; eexists; split; [reflexivity|discriminate].
Qed.

Lemma destination_modes_exclusive_and_required_witness :
  ((arg_prefix (mkArgs (Some "bench.flv") false (Some "2") (Some "rtmp://h/app/s_")
                  (Some "dests.txt")) <> None
    \/ arg_concurrency (mkArgs (Some "bench.flv") false (Some "2") (Some "rtmp://h/app/s_")
                          (Some "dests.txt")) <> None)
   /\ arg_dest_list_file (mkArgs (Some "bench.flv") false (Some "2") (Some "rtmp://h/app/s_")
                            (Some "dests.txt")) <> None) /\
  exists x, run (env_of one_dest three_tags true true)
              (mkArgs (Some "bench.flv") false (Some "2") (Some "rtmp://h/app/s_")
                 (Some "dests.txt")) = ([], x) /\ x <> Success /\
              exists code, exit_code x = Some code /\ code <> 0.
Proof.
  split; [split; [left|]; discriminate|].
  apply (destination_modes_exclusive_and_required (env_of one_dest three_tags true true)).
  left. split; [left|]; discriminate.
Defined.

(** ** C9 *)

(** C9 (code bug): with [--concurrency 0] no destination and no client
    exist, yet the broadcast loop sends every packet of the input, each to
    the one receiver [_rx], and never takes its zero-receiver exit. *)
Theorem zero_concurrency_still_broadcasts :
  subscriptions (fst zero_concurrency_run) = []
  /\ connections (fst zero_concurrency_run) = []
  /\ sent_packets (fst zero_concurrency_run) = [pkt_video0; pkt_audio40; pkt_video90]
  /\ In (Send pkt_video0 1) (fst zero_concurrency_run)
  /\ snd zero_concurrency_run = Success.
Proof.
  vm_compute. split; [reflexivity|split; [reflexivity|split; [reflexivity|split]]].
  - do 2 right. left. reflexivity.
  - reflexivity.
Qed.

(** ** C10 *)

(** C10 (counterexample): an unparsable concurrency given together with a
    list file is not a panic: clap rejects the argument combination. *)
Lemma unparsable_concurrency_usage_error :
  parse_usize "abc" = None /\
  run (env_of one_dest three_tags true true)
      (mkArgs (Some "bench.flv") false (Some "abc") None (Some "dests.txt"))
    = ([], UsageError).
Proof. split; reflexivity. Qed.

(** C10 (amended): with a concurrency value that [usize::from_str]
    rejects with the error [e], the run ends with a non-zero exit status
    before any effect (no file opened, no network activity): clap rejects
    an invalid argument combination with a usage error; a command line clap
    accepts ends in a panic, which is the panic
    [Cannot parse `CONCURRENCY`: ParseIntError { kind: .. }] of
    [Result::expect] when a prefix is given. *)
Theorem unparsable_concurrency_fails_early (env : Env) (a : Args) (c : string)
  (e : ParseIntError) :
  arg_concurrency a = Some c ->
  from_str_usize c = Err e ->
  exists x, run env a = ([], x) /\ (exists code, exit_code x = Some code /\ code <> 0) /\
    (get_matches_ok a = false -> x = UsageError) /\
    (get_matches_ok a = true -> exists msg, x = Panic msg) /\
    (get_matches_ok a = true -> arg_prefix a <> None ->
       x = Panic ("Cannot parse `CONCURRENCY`: " ++ parse_int_error_debug e)).
Proof.
  intros Hc Hn. rewrite run_spec, preflight_spec.
  destruct (get_matches_ok a) eqn:Hclap.
  - unfold destinations, resolve_urls.
    destruct (arg_prefix a) as [p|] eqn:Hp.
    + rewrite Hc. simpl. rewrite Hn. simpl.
      exists (Panic ("Cannot parse `CONCURRENCY`: " ++ parse_int_error_debug e)).
      split; [reflexivity|split; [exists 101; split; [reflexivity|discriminate]|]].
      split; [discriminate|split; [eauto|auto]].
    + destruct (arg_dest_list_file a) as [d|] eqn:Hd.
      * exfalso. unfold get_matches_ok in Hclap. rewrite Hd, Hc in Hclap.
        destruct (arg_input a), (arg_prefix a); simpl in Hclap; discriminate.
      * simpl. exists (Panic "called `Option::unwrap()` on a `None` value").
        split; [reflexivity|split; [exists 101; split; [reflexivity|discriminate]|]].
        split; [discriminate|split; [eauto|]].
        intros _ Hne. congruence.
  - exists UsageError.
    split; [reflexivity|split; [exists 1; split; [reflexivity|discriminate]|]].
    split; [auto|split; intros; discriminate].
Qed.

Lemma unparsable_concurrency_fails_early_witness :
  arg_concurrency (prefix_args "12x" "rtmp://h/app/s_") = Some "12x" /\
  from_str_usize "12x" = Err (mkParseIntError InvalidDigit) /\
  exists x, run (env_of "" three_tags true true) (prefix_args "12x" "rtmp://h/app/s_") = ([], x)
    /\ (exists code, exit_code x = Some code /\ code <> 0)
    /\ (get_matches_ok (prefix_args "12x" "rtmp://h/app/s_") = false -> x = UsageError)
    /\ (get_matches_ok (prefix_args "12x" "rtmp://h/app/s_") = true -> exists msg, x = Panic msg)
    /\ (get_matches_ok (prefix_args "12x" "rtmp://h/app/s_") = true ->
        arg_prefix (prefix_args "12x" "rtmp://h/app/s_") <> None ->
        x = Panic ("Cannot parse `CONCURRENCY`: "
                   ++ parse_int_error_debug (mkParseIntError InvalidDigit))).
Proof.
  split; [reflexivity|split; [reflexivity|]].
  apply (unparsable_concurrency_fails_early (env_of "" three_tags true true)
           (prefix_args "12x" "rtmp://h/app/s_") "12x"); reflexivity.
Defined.

(** The panic message of the witness, in full. *)
Example unparsable_concurrency_message :
  run (env_of "" three_tags true true) (prefix_args "12x" "rtmp://h/app/s_")
  = ([], Panic "Cannot parse `CONCURRENCY`: ParseIntError { kind: InvalidDigit }").
Proof. vm_compute. reflexivity. Qed.

(** * Further properties of [main] *)


(** X1: [BufRead::lines] reads back a destination list file written with
    one entry per line, each entry valid UTF-8 and without a line feed,
    when the reading ends without an error: with ["\r\n"] terminators, and
    with ["\n"] terminators for entries that moreover do not end in a
    carriage return; every item is [Ok]. *)
Theorem list_file_lines_roundtrip (ls : list string) :
  forallb (fun l => no_newline l && utf8_valid l) ls = true ->
  read_lines (write_lines (cr ++ nl) ls) None = map Ok ls /\
  (forallb (fun l => negb (ends_with l cr)) ls = true ->
   read_lines (write_lines nl ls) None = map Ok ls).
Proof.
  unfold read_lines. induction ls as [|l ls IH]; simpl; intro H; [auto|].
  apply andb_prop in H as [Hl H]. apply andb_prop in Hl as [Hl Hv].
  destruct (IH H) as [IH1 IH2]. split.
  - change (l ++ String "013" (String "010" (write_lines (String "013" nl) ls)))
      with (l ++ (cr ++ String "010" (write_lines (cr ++ nl) ls))).
    rewrite <- str_app_assoc.
    rewrite read_lines_aux_line by (rewrite no_newline_app, Hl; reflexivity).
    change (EmptyString ++ (l ++ cr)) with (l ++ cr).
    unfold read_line_item. rewrite str_app_assoc, utf8_valid_app by exact Hv.
    rewrite strip_cr_app_cr, IH1. reflexivity.
  - intro Hcr. apply andb_prop in Hcr as [Hcr1 Hcr].
    rewrite read_lines_aux_line by exact Hl. simpl.
    unfold read_line_item. rewrite utf8_valid_app by exact Hv.
    rewrite strip_cr_no_cr by (apply negb_true_iff; exact Hcr1).
    rewrite IH2 by exact Hcr. reflexivity.
Qed.

Lemma list_file_lines_roundtrip_witness :
  forallb (fun l => no_newline l && utf8_valid l)
    ["rtmp://h/app/a"; ""; "rtmp://h:1936/app/" ++ e_acute] = true /\
  (read_lines (write_lines (cr ++ nl) ["rtmp://h/app/a"; ""; "rtmp://h:1936/app/" ++ e_acute])
     None = map Ok ["rtmp://h/app/a"; ""; "rtmp://h:1936/app/" ++ e_acute] /\
   (forallb (fun l => negb (ends_with l cr))
      ["rtmp://h/app/a"; ""; "rtmp://h:1936/app/" ++ e_acute] = true ->
    read_lines (write_lines nl ["rtmp://h/app/a"; ""; "rtmp://h:1936/app/" ++ e_acute]) None
      = map Ok ["rtmp://h/app/a"; ""; "rtmp://h:1936/app/" ++ e_acute])).
Proof.
  split; [reflexivity|].
  apply list_file_lines_roundtrip. reflexivity.
Defined.

(** X2: in prefix mode the generated destination URLs are pairwise
    distinct. *)
Theorem gen_urls_distinct (prefix : string) (n : nat) : NoDup (gen_urls prefix n).
Proof.
  unfold gen_urls. apply NoDup_map_injective; [|apply seq_NoDup].
  intros x y H. apply usize_to_string_inj, (str_app_inj_l prefix), H.
Qed.


(** X3: when the destination list file cannot be opened, [main] returns
    the I/O error (exit status 1) right after the attempt: no URL is
    parsed, the input is not opened, and no client is created. *)
Theorem missing_list_file_io_error (env : Env) (a : Args) (path : string) :
  get_matches_ok a = true ->
  arg_dest_list_file a = Some path ->
  fs_read env path = None ->
  run env a = ([OpenDestList path], IoError).
Proof.
  intros Hclap Hdest Hfs.
  assert (Hp : arg_prefix a = None).
  { unfold get_matches_ok in Hclap. rewrite Hdest in Hclap.
    destruct (arg_prefix a); [|reflexivity].
    destruct (arg_input a); simpl in Hclap; discriminate. }
  rewrite run_spec, preflight_spec, Hclap. unfold destinations, resolve_urls.
  rewrite Hp, Hdest. simpl. rewrite Hfs. reflexivity.
Qed.

Lemma missing_list_file_io_error_witness :
  get_matches_ok (list_args "bench.flv") = true /\
  fs_read (mkEnv (fun _ => None) (fun _ _ => Some three_tags) (fun _ => true) (fun _ _ => true))
    "dests.txt" = None /\
  run (mkEnv (fun _ => None) (fun _ _ => Some three_tags) (fun _ => true) (fun _ _ => true))
      (list_args "bench.flv") = ([OpenDestList "dests.txt"], IoError).
Proof.
  split; [reflexivity|split; [reflexivity|]].
  apply missing_list_file_io_error; reflexivity.
Defined.

(** X4: when the input file cannot be read, [main] returns the I/O error
    (exit status 1) after the attempt, before the channel exists: no
    receiver is subscribed, no client connects and no packet is sent. *)
Theorem unreadable_input_no_client (env : Env) (a : Args) tp urls input rep :
  preflight env a = (tp, Continue (urls, input, rep)) ->
  flv_stream env input rep = None ->
  run env a = ((tp ++ [OpenInput input rep])%list, IoError) /\
  subscriptions (fst (run env a)) = [] /\
  connections (fst (run env a)) = [] /\
  sent_packets (fst (run env a)) = [].
Proof.
  intros Hpre Hflv.
  pose proof (preflight_quiet env a) as Hq. rewrite Hpre in Hq. simpl in Hq.
  destruct (quiet_silent tp Hq) as [Htp [Hts Htc]].
  rewrite run_spec, Hpre, Hflv. simpl.
  rewrite subscriptions_app, connections_app, sent_packets_app, Htp, Hts, Htc.
  auto.
Qed.

Lemma unreadable_input_no_client_witness :
  preflight (mkEnv (fun _ => Some (one_dest, None)) (fun _ _ => None) (fun _ => true) (fun _ _ => true))
    (list_args "bench.flv")
    = ([OpenDestList "dests.txt"], Continue ([dest_a], "bench.flv", false)) /\
  flv_stream (mkEnv (fun _ => Some (one_dest, None)) (fun _ _ => None) (fun _ => true) (fun _ _ => true))
    "bench.flv" false = None /\
  (run (mkEnv (fun _ => Some (one_dest, None)) (fun _ _ => None) (fun _ => true) (fun _ _ => true))
       (list_args "bench.flv")
     = (([OpenDestList "dests.txt"] ++ [OpenInput "bench.flv" false])%list, IoError) /\
   subscriptions (fst (run (mkEnv (fun _ => Some (one_dest, None)) (fun _ _ => None) (fun _ => true)
                             (fun _ _ => true)) (list_args "bench.flv"))) = [] /\
   connections (fst (run (mkEnv (fun _ => Some (one_dest, None)) (fun _ _ => None) (fun _ => true)
                             (fun _ _ => true)) (list_args "bench.flv"))) = [] /\
   sent_packets (fst (run (mkEnv (fun _ => Some (one_dest, None)) (fun _ _ => None) (fun _ => true)
                             (fun _ _ => true)) (list_args "bench.flv"))) = []).
Proof.
  split; [vm_compute; reflexivity|split; [reflexivity|]].
  apply (unreadable_input_no_client
           (mkEnv (fun _ => Some (one_dest, None)) (fun _ _ => None) (fun _ => true) (fun _ _ => true))
           (list_args "bench.flv") [OpenDestList "dests.txt"] [dest_a] "bench.flv" false);
    vm_compute; reflexivity.
Defined.

(** X5: a prefix without a concurrency never runs: clap's [requires]
    rejects it, so the [unwrap_or(1)] default of [main] is never used. *)
Theorem prefix_without_concurrency_rejected (env : Env) (a : Args) (prefix : string) :
  arg_prefix a = Some prefix ->
  arg_concurrency a = None ->
  run env a = ([], UsageError).
Proof.
  intros Hp Hc. rewrite run_spec, preflight_spec.
  unfold get_matches_ok. rewrite Hp, Hc.
  destruct (arg_input a), (arg_dest_list_file a); reflexivity.
Qed.

Lemma prefix_without_concurrency_rejected_witness :
  arg_prefix (mkArgs (Some "bench.flv") false None (Some "rtmp://h/app/s_") None)
    = Some "rtmp://h/app/s_" /\
  arg_concurrency (mkArgs (Some "bench.flv") false None (Some "rtmp://h/app/s_") None) = None /\
  run (env_of "" three_tags true true)
      (mkArgs (Some "bench.flv") false None (Some "rtmp://h/app/s_") None) = ([], UsageError).
Proof.
  split; [reflexivity|split; [reflexivity|]].
  apply (prefix_without_concurrency_rejected _ _ "rtmp://h/app/s_"); reflexivity.
Defined.

(** X6: once the input is open, a pass of well-decoded packets is
    forwarded into the channel completely, each packet once and in stream
    order, whatever the clients do; without [--repeat] the run then returns
    success, with it the run is still going (the next pass follows). *)
Theorem every_packet_forwarded_in_order (env : Env) (a : Args) tp urls input rep
  (ps : list PacketType) :
  preflight env a = (tp, Continue (urls, input, rep)) ->
  flv_stream env input rep = Some (map Ok ps) ->
  sent_packets (fst (run env a)) = ps /\
  snd (run env a) = (if rep then StillRunning else Success).
Proof.
  intros Hpre Hflv.
  destruct (run_status env a tp urls input rep _ Hpre Hflv) as [Hst Hsent].
  assert (Hall : forall l : list PacketType,
             forallb (fun r => negb (is_err r)) (map (@Ok _ DecodeError) l) = true)
    by (induction l; simpl; auto).
  rewrite Hall, andb_true_r in Hst. split; [|exact Hst].
  rewrite Hsent. apply (ok_prefix_map_Ok ps (mkDecodeError EmptyString) []).
Qed.

Lemma every_packet_forwarded_in_order_witness :
  preflight (env_of one_dest three_tags false false)
      (mkArgs (Some "bench.flv") true None None (Some "dests.txt"))
    = ([OpenDestList "dests.txt"], Continue ([dest_a], "bench.flv", true)) /\
  flv_stream (env_of one_dest three_tags false false) "bench.flv" true
    = Some (map Ok [pkt_video0; pkt_audio40; pkt_video90]) /\
  (sent_packets (fst (run (env_of one_dest three_tags false false)
                        (mkArgs (Some "bench.flv") true None None (Some "dests.txt"))))
     = [pkt_video0; pkt_audio40; pkt_video90] /\
   snd (run (env_of one_dest three_tags false false)
          (mkArgs (Some "bench.flv") true None None (Some "dests.txt")))
     = (if true then StillRunning else Success)).
Proof.
  split; [vm_compute; reflexivity|split; [reflexivity|]].
  apply (every_packet_forwarded_in_order (env_of one_dest three_tags false false)
           (mkArgs (Some "bench.flv") true None None (Some "dests.txt"))
           [OpenDestList "dests.txt"] [dest_a] "bench.flv" true);
    vm_compute; reflexivity.
Defined.

(** X7: no run ever logs a warning: both [warn!] branches of the broadcast
    loop (zero receivers, failed send) are unreachable. *)
Theorem broadcast_never_warns (env : Env) (a : Args) :
  forallb (fun e => negb (is_warn e)) (fst (run env a)) = true.
Proof.
  rewrite run_spec. pose proof (preflight_no_warn env a) as H.
  destruct (preflight env a) as [tp [[[urls input] rep]|x]]; simpl in *; [|exact H].
  destruct (flv_stream env input rep) as [msgs|]; simpl;
    rewrite forallb_app, H; simpl; [apply serve_trace_no_warn|reflexivity].
Qed.

(** X8: a run returns success exactly when the pre-flight steps pass, the
    input opens, and the first pass over it either is the only one (no
    [--repeat]) or holds a decode error; the run is still going when the
    pass is used up under [--repeat] with no decode error.  A client that
    fails or an empty destination list never changes that. *)
Theorem run_success_iff_input_opened (env : Env) (a : Args) :
  (snd (run env a) = Success <->
   exists tp urls input rep msgs,
     preflight env a = (tp, Continue (urls, input, rep)) /\
     flv_stream env input rep = Some msgs /\
     (rep = false \/ existsb is_err msgs = true)) /\
  (snd (run env a) = StillRunning <->
   exists tp urls input rep msgs,
     preflight env a = (tp, Continue (urls, input, rep)) /\
     flv_stream env input rep = Some msgs /\
     rep = true /\ existsb is_err msgs = false).
Proof.
  assert (Hex : forall msgs : list (result PacketType DecodeError),
             forallb (fun r => negb (is_err r)) msgs = negb (existsb is_err msgs)).
  { induction msgs as [|r msgs IH]; simpl; [reflexivity|].
    rewrite IH. destruct (is_err r); reflexivity. }
  destruct (preflight env a) as [tp [[[urls input] rep]|x]] eqn:Hpre.
  - destruct (flv_stream env input rep) as [msgs|] eqn:Hflv.
    + destruct (run_status env a tp urls input rep msgs Hpre Hflv) as [Hst _].
      rewrite Hst, Hex.
      split; split.
      * intro H. exists tp, urls, input, rep, msgs.
        split; [reflexivity|split; [exact Hflv|]].
        destruct rep, (existsb is_err msgs); simpl in H; auto; discriminate.
      * intros (tp' & urls' & input' & rep' & msgs' & Hp & Hf & Hc).
        injection Hp as Ht Hu Hi Hr. subst tp' urls' input' rep'.
        rewrite Hflv in Hf. injection Hf as <-.
        destruct Hc as [-> | ->]; [reflexivity|destruct rep; reflexivity].
      * intro H. exists tp, urls, input, rep, msgs.
        split; [reflexivity|split; [exact Hflv|]].
        destruct rep, (existsb is_err msgs); simpl in H; auto; discriminate.
      * intros (tp' & urls' & input' & rep' & msgs' & Hp & Hf & Hr & Hc).
        injection Hp as Ht Hu Hi Hr'. subst tp' urls' input' rep'.
        rewrite Hflv in Hf. injection Hf as <-. rewrite Hr, Hc. reflexivity.
    + assert (Hrun : snd (run env a) = IoError) by (rewrite run_spec, Hpre, Hflv; reflexivity).
      rewrite Hrun. split; split; intro H; try discriminate H;
        destruct H as (tp' & urls' & input' & rep' & msgs' & Hp & Hf & _);
        injection Hp as Ht Hu Hi Hr; subst; congruence.
  - assert (Hrun : snd (run env a) = x) by (rewrite run_spec, Hpre; reflexivity).
    rewrite Hrun. destruct (preflight_exit env a tp x Hpre) as [->|[->|[m ->]]];
      split; split; intro H; try discriminate H;
      destruct H as (tp' & urls' & input' & rep' & msgs' & Hp & _); discriminate Hp.
Qed.

(** X9: a destination that fails (list file unreadable, concurrency not a
    number, malformed URL) ends the run before the input path is looked
    at: the run's trace and exit status are those of the failure, even
    when the input name would fail the [.flv] check. *)
Theorem destination_failure_precedes_input_check (env : Env) (a : Args) td x :
  get_matches_ok a = true ->
  destinations env a = (td, Exit x) ->
  run env a = (td, x).
Proof.
  intros Hclap Hd. rewrite run_spec, preflight_spec, Hclap, Hd. reflexivity.
Qed.

Lemma destination_failure_precedes_input_check_witness :
  flv_name_ok "x.mp4" = false /\
  get_matches_ok (list_args "x.mp4") = true /\
  destinations (env_of two_bad_dests three_tags true true) (list_args "x.mp4")
    = ([OpenDestList "dests.txt"],
       Exit (Panic "RTMP url error: invalid RTMP url `rtmp:/h/app/a`: the scheme must be rtmp")) /\
  run (env_of two_bad_dests three_tags true true) (list_args "x.mp4")
    = ([OpenDestList "dests.txt"],
       Panic "RTMP url error: invalid RTMP url `rtmp:/h/app/a`: the scheme must be rtmp").
Proof.
  split; [reflexivity|split; [reflexivity|split; [vm_compute; reflexivity|]]].
  apply destination_failure_precedes_input_check; vm_compute; reflexivity.
Defined.

(** X10: in prefix mode with [n] well-formed generated URLs, the run
    subscribes exactly [n] receivers, numbered [0 .. n-1], and the client
    of receiver [k] connects once, to the URL [prefix ++ k]. *)
Theorem prefix_mode_one_publisher_per_url (env : Env) (a : Args) (prefix c input : string)
  (n : nat) (msgs : list (result PacketType DecodeError)) :
  get_matches_ok a = true ->
  arg_prefix a = Some prefix ->
  arg_concurrency a = Some c ->
  parse_usize c = Some n ->
  arg_input a = Some input ->
  flv_name_ok input = true ->
  forallb (fun u => negb (is_err (parse_rtmp_url u))) (gen_urls prefix n) = true ->
  flv_stream env input (arg_repeat a) = Some msgs ->
  subscriptions (fst (run env a)) = seq 0 n /\
  connections (fst (run env a))
    = combine (seq 0 n) (oks (map parse_rtmp_url (gen_urls prefix n))).
Proof.
  intros Hclap Hp Hc Hn Hin Hname Hok Hflv.
  assert (Hd : destinations env a
               = ([], Continue (oks (map parse_rtmp_url (gen_urls prefix n))))).
  { assert (Hn' : from_str_usize c = Ok n).
    { unfold parse_usize in Hn. destruct (from_str_usize c); congruence. }
    unfold destinations, resolve_urls. rewrite Hp, Hc. simpl. rewrite Hn'. simpl.
    rewrite check_urls_ok by exact Hok. reflexivity. }
  assert (Hpre : preflight env a
                 = ([], Continue (oks (map parse_rtmp_url (gen_urls prefix n)),
                                  input, arg_repeat a))).
  { rewrite preflight_spec, Hclap, Hd, Hin, Hname. reflexivity. }
  assert (Hlen : List.length (oks (map parse_rtmp_url (gen_urls prefix n))) = n).
  { rewrite all_ok_oks_length by exact Hok.
    unfold gen_urls. rewrite length_map, length_seq. reflexivity. }
  pose proof (run_clients env a _ _ _ _ msgs Hpre Hflv) as H.
  rewrite Hlen in H. exact H.
Qed.

Lemma prefix_mode_one_publisher_per_url_witness :
  get_matches_ok (prefix_args "2" "rtmp://h/app/s_") = true /\
  parse_usize "2" = Some 2 /\
  forallb (fun u => negb (is_err (parse_rtmp_url u))) (gen_urls "rtmp://h/app/s_" 2) = true /\
  (subscriptions (fst (run (env_of "" three_tags true true) (prefix_args "2" "rtmp://h/app/s_")))
     = seq 0 2 /\
   connections (fst (run (env_of "" three_tags true true) (prefix_args "2" "rtmp://h/app/s_")))
     = combine (seq 0 2) (oks (map parse_rtmp_url (gen_urls "rtmp://h/app/s_" 2)))).
Proof.
  split; [reflexivity|split; [reflexivity|split; [vm_compute; reflexivity|]]].
  apply (prefix_mode_one_publisher_per_url (env_of "" three_tags true true)
           (prefix_args "2" "rtmp://h/app/s_") "rtmp://h/app/s_" "2" "bench.flv" 2 three_tags);
    vm_compute; reflexivity.
Defined.


